(** * The combobox of reach-ui: state chart, reducer and keyboard handling

    A shallow embedding of [packages/combobox/src/index.js].  The state
    chart and the reducer are embedded as the functions they are; the
    event handlers, which call [transition], [onSelect] and
    [event.preventDefault], are embedded as functions returning the list of
    calls they make, in order; the machine driver then runs a [transition]
    on an explicit (state, data) pair. *)

From Stdlib Require Import ZArith String Ascii List Lia.
From stdpp Require Import base option list gmap strings fin_maps.
Import ListNotations.

Local Open Scope string_scope.

(** ** JavaScript values and strings *)

(** The values the combobox stores in its data and passes in payloads: a
    string, [null], or [undefined] (an absent property). A [string] stands
    for a JavaScript string whose code units are below 256. *)
Inductive JSVal : Type :=
  | undefined
  | null
  | str (s : string).

#[global] Instance JSVal_eq_dec : EqDecision JSVal.
Proof. solve_decision. Defined.

(** [a === b] *)
Definition strict_eq (a b : JSVal) : bool := bool_decide (a = b).

(** [a != null]: neither [null] nor [undefined]. *)
Definition not_nullish (a : JSVal) : bool :=
  match a with
  | str _ => true
  | _ => false
  end.

(** The truthiness of a value in a condition: the empty string, [null] and
    [undefined] are falsy. *)
Definition truthy (a : JSVal) : bool :=
  match a with
  | str s => negb (String.eqb s "")
  | _ => false
  end.

(** [a || b] *)
Definition js_or (a b : JSVal) : JSVal := if truthy a then a else b.

(** [s.trim()], on code units below 256: the white space and line
    terminators there are TAB, LF, VT, FF, CR, SPACE and NBSP. *)
Definition isWhiteSpace (c : ascii) : bool :=
  let n := nat_of_ascii c in
  (Nat.leb 9 n && Nat.leb n 13) || Nat.eqb n 32 || Nat.eqb n 160.

Fixpoint trimStart (s : string) : string :=
  match s with
  | EmptyString => EmptyString
  | String c s' => if isWhiteSpace c then trimStart s' else s
  end.

Fixpoint trimEnd (s : string) : string :=
  match s with
  | EmptyString => EmptyString
  | String c s' =>
      let t := trimEnd s' in
      if isWhiteSpace c && String.eqb t "" then EmptyString else String c t
  end.

Definition trim (s : string) : string := trimEnd (trimStart s).

(** [s.charCodeAt(i)] for every [i] below [s.length], in order. *)
Definition charCodes (s : string) : list Z :=
  map (fun c => Z.of_nat (nat_of_ascii c)) (list_ascii_of_string s).

(** ToInt32: the 32-bit two's complement reading every bitwise operator
    gives its operands and its result. *)
Definition toInt32 (z : Z) : Z :=
  let m := (z mod 2 ^ 32)%Z in
  if (2 ^ 31 <=? m)%Z then (m - 2 ^ 32)%Z else m.

(** [a << n] *)
Definition shl32 (a n : Z) : Z := toInt32 (Z.shiftl (toInt32 a) (n mod 32)).

(** [a & b] *)
Definition and32 (a b : Z) : Z := Z.land (toInt32 a) (toInt32 b).

(** [options.indexOf(v)]: the first index holding a value strictly equal to
    [v], or -1. The registry holds option values, which are strings, so
    [null] and [undefined] are never found. *)
Fixpoint indexOf_from (options : list string) (x : string) (i : Z) : Z :=
  match options with
  | [] => (-1)%Z
  | y :: options' =>
      if String.eqb y x then i else indexOf_from options' x (i + 1)%Z
  end.

Definition indexOf (options : list string) (v : JSVal) : Z :=
  match v with
  | str x => indexOf_from options x 0
  | _ => (-1)%Z
  end.

(** [options[i]]: [undefined] outside the array. *)
Definition at_index (options : list string) (i : Z) : JSVal :=
  if (i <? 0)%Z then undefined
  else match options !! Z.to_nat i with
       | Some x => str x
       | None => undefined
       end.

(** ** States (lines 33-44) and action types (lines 49-71) *)

Inductive State : Type :=
  | IDLE
  | SUGGESTING
  | NAVIGATING
  | INTERACTING.

#[global] Instance State_eq_dec : EqDecision State.
Proof. solve_decision. Defined.

Definition CLEAR : string := "CLEAR".
Definition CHANGE : string := "CHANGE".
Definition NAVIGATE : string := "NAVIGATE".
Definition SELECT_WITH_KEYBOARD : string := "SELECT_WITH_KEYBOARD".
Definition SELECT_WITH_CLICK : string := "SELECT_WITH_CLICK".
Definition ESCAPE : string := "ESCAPE".
Definition BLUR : string := "BLUR".
Definition INTERACT : string := "INTERACT".

(** The action types the module declares, in the order of their
    declaration. Every call of [transition] in the module passes one of
    them. *)
Definition actionTypes : list string :=
  [CLEAR; CHANGE; NAVIGATE; SELECT_WITH_KEYBOARD; SELECT_WITH_CLICK;
   ESCAPE; BLUR; INTERACT].

(** ** The state chart (lines 74-117) *)

Record StateNode : Type := { on : gmap string State }.

Record Chart : Type := {
  initial : State;
  states : State -> StateNode
}.

(** The [on] tables are looked up with the declared action types only, so a
    table is the finite map of its own keys. *)
Definition stateChart : Chart := {|
  initial := IDLE;
  states := fun s =>
    match s with
    | IDLE => {| on := list_to_map
        [(BLUR, IDLE);
         (CLEAR, IDLE);
         (CHANGE, SUGGESTING);
         (NAVIGATE, NAVIGATING)] |}
    | SUGGESTING => {| on := list_to_map
        [(CHANGE, SUGGESTING);
         (NAVIGATE, NAVIGATING);
         (CLEAR, IDLE);
         (ESCAPE, IDLE);
         (BLUR, IDLE);
         (SELECT_WITH_CLICK, IDLE);
         (INTERACT, INTERACTING)] |}
    | NAVIGATING => {| on := list_to_map
        [(CHANGE, SUGGESTING);
         (CLEAR, IDLE);
         (BLUR, IDLE);
         (ESCAPE, IDLE);
         (NAVIGATE, NAVIGATING);
         (SELECT_WITH_KEYBOARD, IDLE);
         (SELECT_WITH_CLICK, IDLE);
         (INTERACT, INTERACTING)] |}
    | INTERACTING => {| on := list_to_map
        [(CHANGE, SUGGESTING);
         (BLUR, IDLE);
         (ESCAPE, IDLE);
         (NAVIGATE, NAVIGATING)] |}
    end
|}.

(** ** Errors *)

(** The two [throw] statements of the module: line 161 in the reducer and
    line 667 in the machine driver. *)
Inductive Error : Type :=
  | UnknownAction (type : string)
  | UnknownActionForState (action : string) (state : State).

Inductive Result (A : Type) : Type :=
  | Ok (a : A)
  | Throw (e : Error).
Arguments Ok {A} a.
Arguments Throw {A} e.

Definition succeeds {A : Type} (r : Result A) : Prop := exists a, r = Ok a.

(** ** The data and the reducer (lines 119-163) *)

Record Data : Type := {
  value : JSVal;
  navigationValue : JSVal;
  lastActionType : JSVal
}.

#[global] Instance Data_eq_dec : EqDecision Data.
Proof. solve_decision. Defined.

(** [{ ...d, value: v }] and its siblings. *)
Definition set_value (v : JSVal) (d : Data) : Data :=
  {| value := v;
     navigationValue := navigationValue d;
     lastActionType := lastActionType d |}.

Definition set_navigationValue (v : JSVal) (d : Data) : Data :=
  {| value := value d;
     navigationValue := v;
     lastActionType := lastActionType d |}.

Definition set_lastActionType (v : JSVal) (d : Data) : Data :=
  {| value := value d;
     navigationValue := navigationValue d;
     lastActionType := v |}.

(** A dispatched action. The driver also stores [state] and [nextState] in
    it (line 669); the reducer reads [type] and [value] only. [value] is
    [undefined] when the payload has none. *)
Module Action.
Record t : Type := mk { type : string; value : JSVal }.
End Action.

Definition reducer (data : Data) (action : Action.t) : Result Data :=
  let nextState := set_lastActionType (str (Action.type action)) data in
  let type := Action.type action in
  if String.eqb type CHANGE then
    Ok (set_value (Action.value action) (set_navigationValue null nextState))
  else if String.eqb type NAVIGATE then
    Ok (set_navigationValue (Action.value action) nextState)
  else if String.eqb type CLEAR then
    Ok (set_navigationValue null (set_value (str "") nextState))
  else if String.eqb type BLUR || String.eqb type ESCAPE then
    Ok (set_navigationValue null nextState)
  else if String.eqb type SELECT_WITH_CLICK then
    Ok (set_navigationValue null (set_value (Action.value action) nextState))
  else if String.eqb type SELECT_WITH_KEYBOARD then
    Ok (set_navigationValue null (set_value (navigationValue data) nextState))
  else if String.eqb type INTERACT then
    Ok (set_navigationValue null nextState)
  else
    Throw (UnknownAction type).

(** Lines 165-166. *)
Definition visibleStates : list State := [SUGGESTING; NAVIGATING; INTERACTING].
Definition isVisible (state : State) : bool := bool_decide (state ∈ visibleStates).

(** Line 197: the data a combobox starts with; it has no [lastActionType]
    property yet. *)
Definition defaultData : Data :=
  {| value := str ""; navigationValue := null; lastActionType := undefined |}.

(** ** The machine driver (lines 659-674) *)

Record Machine : Type := { state : State; data : Data }.

Section ReducerMachine.
Variable chart : Chart.
Variable reducer : Data -> Action.t -> Result Data.
Variable initialData : Data.

Definition initialMachine : Machine :=
  {| state := initial chart; data := initialData |}.

(** [transition(action, payload)]: [payload] is the payload's [value]
    property, [undefined] when the call passes no payload or one without
    it. An action the current state does not list throws before anything
    is dispatched; otherwise the reducer's data and the next state replace
    the current ones together. *)
Definition transition (m : Machine) (action : string) (payload : JSVal)
  : Result Machine :=
  let currentState := states chart (state m) in
  match on currentState !! action with
  | None => Throw (UnknownActionForState action (state m))
  | Some nextState =>
      match reducer (data m) (Action.mk action payload) with
      | Ok data' => Ok {| state := nextState; data := data' |}
      | Throw e => Throw e
      end
  end.
End ReducerMachine.

(** Line 205: the machine of a combobox. *)
Definition combobox_transition : Machine -> string -> JSVal -> Result Machine :=
  transition stateChart reducer.

Definition combobox_initial : Machine := initialMachine stateChart defaultData.

(** ** makeHash (lines 683-694) *)

(** [(hash << 5) - hash + char] is an exact sum of three numbers below 2^32
    in size; [hash & hash] brings it back to 32 bits. *)
Definition makeHash_step (hash char : Z) : Z :=
  let hash := (shl32 hash 5 - hash + char)%Z in
  and32 hash hash.

Definition makeHash (s : string) : Z :=
  if Nat.eqb (String.length s) 0 then 0%Z
  else fold_left makeHash_step (charCodes s) 0%Z.

(** ** What a handler does *)

(** The calls a handler makes, in order. [Transition action payload] is
    [transition(action, { value: payload })], and [transition(action)] when
    [payload] is [undefined]. *)
Inductive Call : Type :=
  | PreventDefault
  | OnSelect (v : JSVal)
  | Transition (action : string) (payload : JSVal).

#[global] Instance Call_eq_dec : EqDecision Call.
Proof. solve_decision. Defined.

(** What the handlers read from the context of line 215: the machine's
    state and data as of the last render, whether an [onSelect] prop was
    passed, the option registry ([None] while [optionsRef.current] is
    [null], before a list has rendered) and whether
    [autocompletePropRef.current] is truthy. *)
Record Context : Type := {
  machine : Machine;
  onSelect : bool;
  optionsRef : option (list string);
  autocompletePropRef : bool
}.

(** [onSelect && onSelect(v)] *)
Definition call_onSelect (ctx : Context) (v : JSVal) : list Call :=
  if onSelect ctx then [OnSelect v] else [].

Definition selections (calls : list Call) : list JSVal :=
  omap (fun c => match c with OnSelect v => Some v | _ => None end) calls.

Definition transitions (calls : list Call) : list (string * JSVal) :=
  omap (fun c => match c with Transition a p => Some (a, p) | _ => None end) calls.

(** Running the calls of a handler on the machine. A handler closes over
    the [state] of the render that created it, so each [transition] it
    makes checks the chart at that state; the reducer runs on the data as
    dispatched so far, and the last [setState] wins. *)
Fixpoint run_from (captured : State) (m : Machine) (calls : list Call)
  : Result Machine :=
  match calls with
  | [] => Ok m
  | Transition action payload :: calls' =>
      match combobox_transition
              {| state := captured; data := data m |} action payload with
      | Ok m' => run_from captured m' calls'
      | Throw e => Throw e
      end
  | _ :: calls' => run_from captured m calls'
  end.

Definition run (m : Machine) (calls : list Call) : Result Machine :=
  run_from (state m) m calls.

(** ** ComboboxInput (lines 251-358) *)

(** Line 289. *)
Definition isControlled (controlledValue : JSVal) : bool :=
  not_nullish controlledValue.

(** Lines 295-301. *)
Definition handleValueChange (value : string) : list Call :=
  if String.eqb (trim value) "" then [Transition CLEAR undefined]
  else [Transition CHANGE (str value)].

(** Lines 306-308, run on every render of the input: the calls made for a
    [value] prop [controlledValue] ([undefined] when the prop is absent). *)
Definition syncControlled (ctx : Context) (controlledValue : JSVal)
  : list Call :=
  if isControlled controlledValue
     && negb (strict_eq controlledValue (value (data (machine ctx))))
  then
    match controlledValue with
    | str v => handleValueChange v
    | _ => []
    end
  else [].

(** Lines 312-316. *)
Definition handleChange (controlledValue : JSVal) (target_value : string)
  : list Call :=
  if negb (isControlled controlledValue) then handleValueChange target_value
  else [].

(** Lines 331-335. *)
Definition inputValue (ctx : Context) (autocomplete : bool)
  (controlledValue : JSVal) : JSVal :=
  let d := data (machine ctx) in
  if autocomplete && bool_decide (state (machine ctx) = NAVIGATING)
  then js_or (navigationValue d) (js_or controlledValue (value d))
  else js_or controlledValue (value d).

(** Lines 353-355: the [aria-activedescendant] attribute, [None] when the
    expression is [undefined] and the attribute is left out. *)
Definition aria_activedescendant (ctx : Context) : option Z :=
  let navigationValue := navigationValue (data (machine ctx)) in
  if truthy navigationValue then
    match navigationValue with
    | str v => Some (makeHash v)
    | _ => None
    end
  else None.

(** ** ComboboxOption (lines 431-471) *)

(** Line 459: the [id] attribute, written after the spread of the other
    props. *)
Definition option_id (value : string) : Z := makeHash value.

(** Line 446. *)
Definition isActive (ctx : Context) (value : string) : bool :=
  strict_eq (navigationValue (data (machine ctx))) (str value).

(** Lines 448-451. *)
Definition handleClick (ctx : Context) (value : string) : list Call :=
  call_onSelect ctx (str value) ++ [Transition SELECT_WITH_CLICK (str value)].

(** The options of a list, as rendered: each with its [id], in the order
    of the registry. *)
Definition rendered_ids (options : list string) : list (string * Z) :=
  map (fun v => (v, option_id v)) options.

(** ** useKeyDown (lines 523-630) *)

Definition handleKeyDown (ctx : Context) (key : string) : list Call :=
  let navigationValue := navigationValue (data (machine ctx)) in
  let state := state (machine ctx) in
  if String.eqb key "ArrowDown" then
    PreventDefault ::
    match optionsRef ctx with
    | None => []
    | Some options =>
        let len := Z.of_nat (length options) in
        if (len =? 0)%Z then []
        else if bool_decide (state = IDLE) then [Transition NAVIGATE null]
        else
          let index := indexOf options navigationValue in
          let atBottom := (index =? len - 1)%Z in
          if atBottom then
            if autocompletePropRef ctx then [Transition NAVIGATE null]
            else
              let firstOption := at_index options 0 in
              [Transition NAVIGATE firstOption]
          else
            let nextValue := at_index options (Z.rem (index + 1) len) in
            [Transition NAVIGATE nextValue]
    end
  else if String.eqb key "ArrowUp" then
    PreventDefault ::
    match optionsRef ctx with
    | None => []
    | Some options =>
        let len := Z.of_nat (length options) in
        if (len =? 0)%Z then []
        else if bool_decide (state = IDLE) then [Transition NAVIGATE null]
        else
          let index := indexOf options navigationValue in
          if (index =? 0)%Z then
            if autocompletePropRef ctx then [Transition NAVIGATE null]
            else
              let lastOption := at_index options (len - 1) in
              [Transition NAVIGATE lastOption]
          else if (index =? -1)%Z then
            let value :=
              if (len =? 0)%Z then null else at_index options (len - 1) in
            [Transition NAVIGATE value]
          else
            let nextValue := at_index options (Z.rem (index - 1 + len) len) in
            [Transition NAVIGATE nextValue]
    end
  else if String.eqb key "Escape" then
    if negb (bool_decide (state = IDLE)) then [Transition ESCAPE undefined]
    else []
  else if String.eqb key "Enter" then
    if bool_decide (state = NAVIGATING)
       && negb (strict_eq navigationValue null)
    then
      PreventDefault ::
      call_onSelect ctx navigationValue ++
      [Transition SELECT_WITH_KEYBOARD undefined]
    else []
  else [].

(** The context of the next render: the machine has moved on, the props
    and the registry are as before. *)
Definition rerender (ctx : Context) (m : Machine) : Context :=
  {| machine := m;
     onSelect := onSelect ctx;
     optionsRef := optionsRef ctx;
     autocompletePropRef := autocompletePropRef ctx |}.

(** ** The action protocol *)

(** The actions the call sites of [transition] build: [CHANGE] carries the
    string whose [trim()] was just taken (line 299), [NAVIGATE] carries
    [null] or an element of the registry (lines 550-608),
    [SELECT_WITH_CLICK] the option's value (line 450), the others
    nothing. *)
Inductive TypedAction : Type :=
  | Clear
  | Change (v : string)
  | Navigate (v : option string)
  | SelectWithKeyboard
  | SelectWithClick (v : string)
  | Escape
  | Blur
  | Interact.

Definition dispatched (a : TypedAction) : Action.t :=
  match a with
  | Clear => Action.mk CLEAR undefined
  | Change v => Action.mk CHANGE (str v)
  | Navigate (Some v) => Action.mk NAVIGATE (str v)
  | Navigate None => Action.mk NAVIGATE null
  | SelectWithKeyboard => Action.mk SELECT_WITH_KEYBOARD undefined
  | SelectWithClick v => Action.mk SELECT_WITH_CLICK (str v)
  | Escape => Action.mk ESCAPE undefined
  | Blur => Action.mk BLUR undefined
  | Interact => Action.mk INTERACT undefined
  end.

(** The reducer applied to a sequence of actions, as [useReducer] applies
    it to the actions dispatched one after the other. *)
Fixpoint reduce_all (d : Data) (actions : list Action.t) : Result Data :=
  match actions with
  | [] => Ok d
  | a :: actions' =>
      match reducer d a with
      | Ok d' => reduce_all d' actions'
      | Throw e => Throw e
      end
  end.

(** ** useFocusManagement (lines 513-519) *)

(** Whether the effect that runs after a render calls
    [inputRef.current.focus()]. *)
Definition useFocusManagement (lastActionType : JSVal) : bool :=
  strict_eq lastActionType (str NAVIGATE)
  || strict_eq lastActionType (str ESCAPE).

(** ** useBlur (lines 632-654) *)

(** What the deferred check of a blur reads from the document: whether
    [document.activeElement] is the input, and, when [popupRef.current]
    holds a popup, whether the popup contains the active element. *)
Record FocusCheck : Type := {
  active_is_input : bool;
  popupRef : option bool
}.

Definition handleBlur (ctx : Context) (f : FocusCheck) : list Call :=
  match popupRef f with
  | Some contains_active =>
      if negb (active_is_input f) then
        if contains_active then
          if negb (bool_decide (state (machine ctx) = INTERACTING))
          then [Transition INTERACT undefined]
          else []
        else [Transition BLUR undefined]
      else []
  | None => []
  end.

(** ** Selecting the text on click (lines 283, 318-329) *)

(** [handleFocus] and [handleClick] of the input on [selectOnClickRef]: the
    new content of the ref, and whether [inputRef.current.select()] is
    called. *)
Inductive InputEvent : Type :=
  | FocusEvent
  | ClickEvent.

Definition selectOnClick_step (selectOnClick : bool) (ref : bool)
  (e : InputEvent) : bool * bool :=
  match e with
  | FocusEvent => (if selectOnClick then true else ref, false)
  | ClickEvent => if ref then (false, true) else (ref, false)
  end.

(** A sequence of focus and click events from the initial ref, [false]:
    for each event, whether it selected the text. *)
Fixpoint selectOnClick_run (selectOnClick : bool) (ref : bool)
  (events : list InputEvent) : list bool :=
  match events with
  | [] => []
  | e :: events' =>
      let '(ref', selected) := selectOnClick_step selectOnClick ref e in
      selected :: selectOnClick_run selectOnClick ref' events'
  end.

(** ** The events of a combobox *)

(** What can run a handler: a key on the input or the popup, a click on an
    option, a change event of the input (with the [value] prop of the
    input), a render of the input for a [value] prop, and the deferred
    check of a blur. *)
Inductive UIEvent : Type :=
  | KeyDown (key : string)
  | OptionClick (value : string)
  | InputChange (controlledValue : JSVal) (text : string)
  | InputRender (controlledValue : JSVal)
  | BlurCheck (f : FocusCheck).

Definition handle (ctx : Context) (e : UIEvent) : list Call :=
  match e with
  | KeyDown key => handleKeyDown ctx key
  | OptionClick value => handleClick ctx value
  | InputChange controlledValue text => handleChange controlledValue text
  | InputRender controlledValue => syncControlled ctx controlledValue
  | BlurCheck f => handleBlur ctx f
  end.

(** * packages/utils/src/index.tsx *)

(** ** wrapEvent (lines 256-266) *)

(** An event as a handler sees it: its [defaultPrevented] flag. A handler
    may change the event and has effects of its own, of some type [Eff]. *)
Record Event : Type := { defaultPrevented : bool }.

Section WrapEvent.
Variable Eff : Type.

Definition Handler : Type := Event -> Event * list Eff.

(** [theirHandler] is [None] when the prop is [undefined]. *)
Definition wrapEvent (theirHandler : option Handler) (ourHandler : Handler)
  : Handler :=
  fun event =>
    let '(event, theirs) :=
      match theirHandler with
      | Some h => h event
      | None => (event, [])
      end in
    if negb (defaultPrevented event) then
      let '(event, ours) := ourHandler event in
      (event, (theirs ++ ours)%list)
    else (event, theirs).
End WrapEvent.
Arguments wrapEvent {Eff} theirHandler ourHandler.

(** ** makeId (lines 170-172) *)

(** How [join] writes an element: a string as it is (a number argument is
    given as the string [join] writes for it), [null] and [undefined] as
    the empty string. *)
Definition join_element (v : JSVal) : string :=
  match v with
  | str x => x
  | _ => ""
  end.

Definition makeId (args : list JSVal) : string :=
  String.concat "--" (map join_element (List.filter not_nullish args)).

(** ** useControlledSwitchWarning (lines 356-381) *)

(** The two messages, by the switch each one names. *)
Inductive SwitchMessage : Type :=
  | UncontrolledToControlled
  | ControlledToUncontrolled.

(** [warning(condition, message)] of the warning package: the message is
    printed when the condition is false. *)
Definition warning (condition : bool) (message : SwitchMessage)
  : list SwitchMessage :=
  if condition then [] else [message].

(** Lines 367-379: the messages the effect prints. *)
Definition switch_effect (DEV : bool) (isControlled wasControlled : bool)
  : list SwitchMessage :=
  if DEV then
    (warning (negb (negb isControlled && wasControlled))
       UncontrolledToControlled
     ++ warning (negb (negb isControlled && wasControlled))
          ControlledToUncontrolled)%list
  else [].

(** The hook over the renders of one component, given the control prop of
    each render: what is printed after each. [wasControlled] is read from
    a ref that keeps what the first render stored; the effect runs after
    the first render and after each render whose [isControlled] differs
    from the one before (the two names are taken to stay the same). *)
Fixpoint switch_rerenders (DEV : bool) (wasControlled previous : bool)
  (props : list JSVal) : list (list SwitchMessage) :=
  match props with
  | [] => []
  | controlPropValue :: props' =>
      let isControlled := not_nullish controlPropValue in
      (if Bool.eqb isControlled previous then []
       else switch_effect DEV isControlled wasControlled)
      :: switch_rerenders DEV wasControlled isControlled props'
  end.

Definition useControlledSwitchWarning (DEV : bool) (props : list JSVal)
  : list (list SwitchMessage) :=
  match props with
  | [] => []
  | controlPropValue :: props' =>
      let isControlled := not_nullish controlPropValue in
      switch_effect DEV isControlled isControlled
      :: switch_rerenders DEV isControlled isControlled props'
  end.

(** ** usePrevious (lines 219-225) *)

Section UsePrevious.
Variable V : Type.
Variable V_eq_dec : EqDecision V.

(** The hook over the renders of one component, given the value of each
    render: what each render returns ([None] for [null]). [ref] is
    [ref.current]; [deps] is the value the effect last ran for, [None]
    before the first render. The effect runs after a render whose value is
    not the one it last ran for. *)
Fixpoint usePrevious_from (ref deps : option V) (values : list V)
  : list (option V) :=
  match values with
  | [] => []
  | value :: values' =>
      ref :: usePrevious_from
               (if bool_decide (deps = Some value) then ref else Some value)
               (Some value) values'
  end.

Definition usePrevious (values : list V) : list (option V) :=
  usePrevious_from None None values.
End UsePrevious.
Arguments usePrevious_from {V V_eq_dec} ref deps values.
Arguments usePrevious {V V_eq_dec} values.

(** * The vocabulary of the properties *)

(** The legal actions of each state, as the specification lists them. *)
Definition legalActions (s : State) : list string :=
  match s with
  | IDLE => [BLUR; CLEAR; CHANGE; NAVIGATE]
  | SUGGESTING =>
      [CHANGE; NAVIGATE; CLEAR; ESCAPE; BLUR; SELECT_WITH_CLICK; INTERACT]
  | NAVIGATING =>
      [CHANGE; CLEAR; BLUR; ESCAPE; NAVIGATE; SELECT_WITH_KEYBOARD;
       SELECT_WITH_CLICK; INTERACT]
  | INTERACTING => [CHANGE; BLUR; ESCAPE; NAVIGATE]
  end.

(** The action types after which the navigation value is gone. *)
Definition resetting : list string :=
  [CLEAR; BLUR; ESCAPE; SELECT_WITH_CLICK; SELECT_WITH_KEYBOARD; INTERACT].

(** The data records the reducer can reach from the initial one, when
    SelectWithKeyboard is dispatched only while a navigation value is
    there: the guard of the Enter key (line 620). *)
Inductive reachable : Data -> Prop :=
  | reachable_initial : reachable defaultData
  | reachable_step (d d' : Data) (a : TypedAction) :
      reachable d ->
      (a = SelectWithKeyboard -> navigationValue d <> null) ->
      reducer d (dispatched a) = Ok d' ->
      reachable d'.

Definition is_string (v : JSVal) : Prop := exists s, v = str s.
Definition is_string_or_null (v : JSVal) : Prop := v = null \/ is_string v.

(** [i] is the position of [v] in the registry: the first index that holds
    [v], or -1 when none does, as for [null]. *)
Definition position (options : list string) (v : JSVal) (i : Z) : Prop :=
  (i = (-1)%Z /\ forall x, v = str x -> x ∉ options)
  \/ (exists x, v = str x /\ (0 <= i)%Z
                /\ options !! Z.to_nat i = Some x
                /\ forall j, (j < Z.to_nat i)%nat -> options !! j <> Some x).

(** A combobox as it mounts. *)
Definition mounted (options : option (list string)) : Context :=
  {| machine := combobox_initial;
     onSelect := true;
     optionsRef := options;
     autocompletePropRef := true |}.

(** The registry of the specification's scenario, and a context that is
    navigating it. *)
Definition fruits : list string := ["Apple"; "Banana"; "Cherry"].

Definition navigating (options : list string) (navigationValue : JSVal)
  (onSelect autocomplete : bool) : Context :=
  {| machine :=
       {| state := NAVIGATING;
          data := {| value := str "";
                     navigationValue := navigationValue;
                     lastActionType := str NAVIGATE |} |};
     onSelect := onSelect;
     optionsRef := Some options;
     autocompletePropRef := autocomplete |}.

(** The guard of the Enter key (line 620). *)
Definition Enter_guard (ctx : Context) : Prop :=
  state (machine ctx) = NAVIGATING
  /\ navigationValue (data (machine ctx)) <> null.

(** The statement that Enter calls [onSelect] once with the navigation
    value and makes the SelectWithKeyboard transition exactly under the
    guard. *)
Definition Enter_always_selects (ctx : Context) : Prop :=
  let calls := handleKeyDown ctx "Enter" in
  (selections calls = [navigationValue (data (machine ctx))]
   /\ transitions calls = [(SELECT_WITH_KEYBOARD, undefined)])
  <-> Enter_guard ctx.

(** The statement that one action brings the data in line with a
    controlled value that differs from it: Clear for an empty or
    white-space value, Change otherwise, after which the value of the data
    is the controlled one and the next render emits nothing. *)
Definition sync_settles (ctx : Context) (controlled : string) : Prop :=
  str controlled <> value (data (machine ctx)) ->
  exists action payload m',
    syncControlled ctx (str controlled) = [Transition action payload]
    /\ action = (if String.eqb (trim controlled) "" then CLEAR else CHANGE)
    /\ run (machine ctx) [Transition action payload] = Ok m'
    /\ value (data m') = str controlled
    /\ syncControlled (rerender ctx m') (str controlled) = [].

(** The statement that the input refers to the hash of the navigation
    value whenever that value is not null, and to nothing when it is. *)
Definition activedescendant_of_non_null (ctx : Context) : Prop :=
  let nav := navigationValue (data (machine ctx)) in
  (nav = null -> aria_activedescendant ctx = None)
  /\ (nav <> null ->
      exists v, nav = str v /\ aria_activedescendant ctx = Some (makeHash v)).

(** The state every table of the chart gives an action type. *)
Definition target (action : string) : State :=
  if String.eqb action CHANGE then SUGGESTING
  else if String.eqb action NAVIGATE then NAVIGATING
  else if String.eqb action INTERACT then INTERACTING
  else IDLE.

(** The machines a combobox can be in: the initial one, and the ones the
    handlers lead to, whatever the props and the registry are at each
    event. The check of a blur runs a frame after the blur, so it may run
    with the state of an earlier render, on the data as they are by
    then. *)
Inductive ui_reachable : Machine -> Prop :=
  | ui_mounted : ui_reachable combobox_initial
  | ui_handled (m m' : Machine) (onSelect autocomplete : bool)
      (options : option (list string)) (e : UIEvent) :
      ui_reachable m ->
      run m (handle {| machine := m; onSelect := onSelect;
                       optionsRef := options;
                       autocompletePropRef := autocomplete |} e) = Ok m' ->
      ui_reachable m'
  | ui_blur_deferred (m m' : Machine) (captured : State)
      (onSelect autocomplete : bool) (options : option (list string))
      (f : FocusCheck) :
      ui_reachable m ->
      run_from captured m
        (handleBlur {| machine := {| state := captured; data := data m |};
                       onSelect := onSelect;
                       optionsRef := options;
                       autocompletePropRef := autocomplete |} f) = Ok m' ->
      ui_reachable m'.

(** The combobox of the scenario after its three ArrowDown keys and
    Enter. *)
Definition selected_Banana : Machine :=
  {| state := IDLE;
     data := {| value := str "Banana"; navigationValue := null;
                lastActionType := str SELECT_WITH_KEYBOARD |} |}.

(** A text of white space only. *)
Fixpoint all_whitespace (s : string) : bool :=
  match s with
  | EmptyString => true
  | String c s' => isWhiteSpace c && all_whitespace s'
  end.

(** * Properties *)

(** Closes a decidable goal about concrete values by evaluation. *)
Ltac decide_now := apply (bool_decide_unpack _); vm_compute; exact I.

(** ** The state chart and the driver *)

Lemma chart_keys (s : State) (A : string) :
  is_Some (on (states stateChart s) !! A) <-> A ∈ legalActions s.
Proof.
  rewrite <- elem_of_dom.
  destruct s; cbn [stateChart states on];
    rewrite dom_list_to_map_L, elem_of_list_to_set; reflexivity.
Qed.

Lemma legal_is_declared (s : State) (A : string) :
  A ∈ legalActions s -> A ∈ actionTypes.
Proof.
  destruct s; unfold legalActions, actionTypes;
    rewrite !elem_of_cons, !elem_of_nil; tauto.
Qed.

Lemma reducer_declared (d : Data) (A : string) (payload : JSVal) :
  A ∈ actionTypes -> succeeds (reducer d (Action.mk A payload)).
Proof.
  unfold actionTypes. rewrite !elem_of_cons, elem_of_nil.
  intros H. unfold succeeds.
  repeat destruct H as [-> | H]; try (eexists; reflexivity); contradiction.
Qed.

Lemma reducer_undeclared (d : Data) (a : Action.t) :
  Action.type a ∉ actionTypes ->
  reducer d a = Throw (UnknownAction (Action.type a)).
Proof.
  unfold actionTypes. rewrite !elem_of_cons, elem_of_nil. intros H.
  unfold reducer.
  repeat match goal with
  | |- context [String.eqb ?x ?y] =>
      destruct (String.eqb_spec x y) as [E | _]; [exfalso; apply H; tauto |]
  end.
  reflexivity.
Qed.

(** C1. For every state S and every declared action type A, the driver's
    transition from S on A succeeds exactly when A is one of the legal
    actions of S, and throws the driver's error for every other pair. *)
Theorem transition_succeeds_iff_legal (m : Machine) (A : string) (payload : JSVal) :
  A ∈ actionTypes ->
  (succeeds (combobox_transition m A payload) <-> A ∈ legalActions (state m))
  /\ (A ∉ legalActions (state m) ->
      combobox_transition m A payload
      = Throw (UnknownActionForState A (state m))).
Proof.
  intros HA. unfold combobox_transition, transition.
  destruct (on (states stateChart (state m)) !! A) as [nextState |] eqn:E.
  - assert (L : A ∈ legalActions (state m)) by (apply chart_keys; eauto).
    destruct (reducer_declared (data m) A payload HA) as [d' ->].
    split; [split; [auto | intros _; eexists; reflexivity] | tauto].
  - assert (L : A ∉ legalActions (state m)).
    { intros L. apply chart_keys in L. destruct L as [x L]. congruence. }
    split; [split; [intros [m' F]; discriminate | tauto] | reflexivity].
Qed.

(** The theorem at Idle and at Interacting on Clear: legal in the first,
    absent from the table of the second. *)
Lemma transition_succeeds_iff_legal_witness :
  CLEAR ∈ actionTypes
  /\ succeeds (combobox_transition combobox_initial CLEAR undefined)
  /\ combobox_transition
       {| state := INTERACTING; data := defaultData |} CLEAR undefined
     = Throw (UnknownActionForState CLEAR INTERACTING).
Proof.
  assert (H : CLEAR ∈ actionTypes) by decide_now.
  split; [exact H | split].
  - apply (transition_succeeds_iff_legal combobox_initial CLEAR undefined H).
    decide_now.
  - apply (transition_succeeds_iff_legal
             {| state := INTERACTING; data := defaultData |} CLEAR undefined H).
    decide_now.
Defined.

(** ** The reducer *)

(** C2. For every data record the reducer gives: on Change(v), value v and
    navigationValue null; on Navigate(v), navigationValue v (null included)
    and the value as it was; on Clear, the empty value and navigationValue
    null; on Blur and on Escape, navigationValue null and the value as it
    was; on SelectWithClick(v), value v and navigationValue null; on
    SelectWithKeyboard, the former navigationValue as value and
    navigationValue null; on Interact, navigationValue null and the value
    as it was; each time with the action's type as lastActionType. On any
    other action type it throws. *)
Theorem reducer_rules (d : Data) :
  (forall v, reducer d (Action.mk CHANGE v)
     = Ok {| value := v; navigationValue := null;
             lastActionType := str CHANGE |})
  /\ (forall v, reducer d (Action.mk NAVIGATE v)
     = Ok {| value := value d; navigationValue := v;
             lastActionType := str NAVIGATE |})
  /\ (forall v, reducer d (Action.mk CLEAR v)
     = Ok {| value := str ""; navigationValue := null;
             lastActionType := str CLEAR |})
  /\ (forall v, reducer d (Action.mk BLUR v)
     = Ok {| value := value d; navigationValue := null;
             lastActionType := str BLUR |})
  /\ (forall v, reducer d (Action.mk ESCAPE v)
     = Ok {| value := value d; navigationValue := null;
             lastActionType := str ESCAPE |})
  /\ (forall v, reducer d (Action.mk SELECT_WITH_CLICK v)
     = Ok {| value := v; navigationValue := null;
             lastActionType := str SELECT_WITH_CLICK |})
  /\ (forall v, reducer d (Action.mk SELECT_WITH_KEYBOARD v)
     = Ok {| value := navigationValue d; navigationValue := null;
             lastActionType := str SELECT_WITH_KEYBOARD |})
  /\ (forall v, reducer d (Action.mk INTERACT v)
     = Ok {| value := value d; navigationValue := null;
             lastActionType := str INTERACT |})
  /\ (forall a, Action.type a ∉ actionTypes ->
       reducer d a = Throw (UnknownAction (Action.type a))).
Proof.
  repeat split; try reflexivity.
  intros a. apply reducer_undeclared.
Qed.

(** The theorem at an action type the module does not declare. *)
Lemma reducer_rules_witness :
  ("TOGGLE" ∉ actionTypes)
  /\ reducer defaultData (Action.mk "TOGGLE" undefined)
     = Throw (UnknownAction "TOGGLE").
Proof.
  assert (H : "TOGGLE" ∉ actionTypes) by decide_now.
  split; [exact H |].
  apply (reducer_rules defaultData). exact H.
Defined.

(** C6. For every data record and every action of type Clear, Blur,
    Escape, SelectWithClick, SelectWithKeyboard or Interact, whatever its
    payload, the reducer returns a record whose navigationValue is null. *)
Theorem navigationValue_null_after_resetting (d : Data) (a : Action.t) :
  Action.type a ∈ resetting ->
  exists d', reducer d a = Ok d' /\ navigationValue d' = null.
Proof.
  destruct a as [type v]. cbn [Action.type].
  unfold resetting. rewrite !elem_of_cons, elem_of_nil.
  intros H.
  repeat destruct H as [-> | H]; try contradiction;
    eexists; (split; [reflexivity |]); reflexivity.
Qed.

Lemma navigationValue_null_after_resetting_witness :
  SELECT_WITH_KEYBOARD ∈ resetting
  /\ (exists d',
      reducer {| value := str "ap"; navigationValue := str "Apple";
                 lastActionType := str NAVIGATE |}
              (Action.mk SELECT_WITH_KEYBOARD undefined) = Ok d'
      /\ navigationValue d' = null).
Proof.
  assert (H : SELECT_WITH_KEYBOARD ∈ resetting) by decide_now.
  split; [exact H |].
  apply (navigationValue_null_after_resetting
           {| value := str "ap"; navigationValue := str "Apple";
              lastActionType := str NAVIGATE |}
           (Action.mk SELECT_WITH_KEYBOARD undefined)).
  exact H.
Defined.

(** C8. From any data record, Clear, then Change("x"), then Clear leaves
    the same record as a single Clear: value, navigationValue and
    lastActionType alike. *)
Theorem clear_change_clear (d : Data) :
  exists d',
    reduce_all d [dispatched Clear; dispatched (Change "x"); dispatched Clear]
    = Ok d'
    /\ reduce_all d [dispatched Clear] = Ok d'
    /\ d' = {| value := str ""; navigationValue := null;
               lastActionType := str CLEAR |}.
Proof.
  eexists. repeat split; reflexivity.
Qed.

(** ** The value is a string *)

Lemma reachable_typed (d : Data) :
  reachable d -> is_string (value d) /\ is_string_or_null (navigationValue d).
Proof.
  unfold is_string_or_null, is_string.
  induction 1 as [| d d' a _ [[s Hs] Hn] Hg Hr].
  - split; [exists ""; reflexivity | left; reflexivity].
  - destruct a as [| v | [v |] | | v | | |]; cbn in Hr;
      injection Hr as <-; cbn; eauto.
    destruct Hn as [Hn | Hn]; [| eauto].
    exfalso. apply Hg; [reflexivity | exact Hn].
Qed.

(** C10. In every data record reached from the initial one by reducer
    steps that apply SelectWithKeyboard only while navigationValue is not
    null, the value is a string, hence not null; and a SelectWithKeyboard
    step taken while navigationValue is null makes the value null. *)
Theorem value_is_string :
  (forall d, reachable d -> is_string (value d) /\ value d <> null)
  /\ (forall d, navigationValue d = null ->
       exists d', reducer d (dispatched SelectWithKeyboard) = Ok d'
                  /\ value d' = null).
Proof.
  split.
  - intros d H. destruct (reachable_typed d H) as [[s Hs] _].
    split; [exists s; exact Hs | rewrite Hs; discriminate].
  - intros d Hn. eexists. split; [reflexivity |]. exact Hn.
Qed.

(** The theorem after Navigate("Apple") and SelectWithKeyboard, and at the
    unguarded step from the initial record. *)
Lemma value_is_string_witness :
  (is_string (str "Apple") /\ str "Apple" <> null)
  /\ (exists d', reducer defaultData (dispatched SelectWithKeyboard) = Ok d'
                 /\ value d' = null).
Proof.
  split.
  - apply (proj1 value_is_string
             {| value := str "Apple"; navigationValue := null;
                lastActionType := str SELECT_WITH_KEYBOARD |}).
    apply (reachable_step
             {| value := str ""; navigationValue := str "Apple";
                lastActionType := str NAVIGATE |} _ SelectWithKeyboard).
    + apply (reachable_step defaultData _ (Navigate (Some "Apple"))).
      * exact reachable_initial.
      * discriminate.
      * reflexivity.
    + intros _. discriminate.
    + reflexivity.
  - apply (proj2 value_is_string defaultData). reflexivity.
Defined.

(** ** The keyboard *)

Lemma indexOf_from_spec (options : list string) (x : string) (k : Z) :
  (0 <= k)%Z ->
  (indexOf_from options x k = (-1)%Z /\ x ∉ options)
  \/ ((k <= indexOf_from options x k)%Z
      /\ options !! Z.to_nat (indexOf_from options x k - k) = Some x
      /\ forall j, (j < Z.to_nat (indexOf_from options x k - k))%nat ->
                   options !! j <> Some x).
Proof.
  revert k. induction options as [| y options IH]; intros k Hk; cbn.
  - left. split; [reflexivity | apply not_elem_of_nil].
  - destruct (String.eqb_spec y x) as [-> | Hne].
    + right. rewrite Z.sub_diag. cbn.
      split; [lia | split; [reflexivity | intros j Hj; lia]].
    + destruct (IH (k + 1)%Z ltac:(lia)) as [[E Hx] | (Hle & Hl & Hf)].
      * left. split; [exact E |].
        rewrite elem_of_cons. intros [-> | H]; [congruence | auto].
      * right. split; [lia |].
        replace (Z.to_nat (indexOf_from options x (k + 1) - k))
          with (S (Z.to_nat (indexOf_from options x (k + 1) - (k + 1))))
          by lia.
        split; [exact Hl |].
        intros [| j] Hj; cbn; [congruence | apply Hf; lia].
Qed.

Lemma indexOf_position (options : list string) (v : JSVal) :
  position options v (indexOf options v).
Proof.
  unfold position. destruct v as [| | x]; cbn.
  - left. split; [reflexivity | discriminate].
  - left. split; [reflexivity | discriminate].
  - destruct (indexOf_from_spec options x 0 ltac:(lia))
      as [[E Hx] | (Hle & Hl & Hf)].
    + left. split; [exact E |]. intros ? [= <-]. exact Hx.
    + right. exists x. rewrite Z.sub_0_r in Hl, Hf. auto.
Qed.

Lemma position_unique (options : list string) (v : JSVal) (i j : Z) :
  position options v i -> position options v j -> i = j.
Proof.
  intros [[-> Hi] | (x & -> & Hi0 & Hil & Hif)]
         [[-> Hj] | (y & Ey & Hj0 & Hjl & Hjf)]; try reflexivity.
  - exfalso. apply (Hi y Ey). eapply list_elem_of_lookup_2. exact Hjl.
  - exfalso. apply (Hj x eq_refl). eapply list_elem_of_lookup_2. exact Hil.
  - injection Ey as <-.
    destruct (Nat.lt_trichotomy (Z.to_nat i) (Z.to_nat j)) as [H | [H | H]].
    + exfalso. exact (Hjf _ H Hil).
    + lia.
    + exfalso. exact (Hif _ H Hjl).
Qed.

Lemma position_range (options : list string) (v : JSVal) (i : Z) :
  position options v i -> (-1 <= i < Z.of_nat (length options))%Z.
Proof.
  intros [[-> _] | (x & _ & Hi0 & Hil & _)]; [lia |].
  apply lookup_lt_Some in Hil. lia.
Qed.

Lemma at_index_in_range (options : list string) (i : Z) :
  (0 <= i < Z.of_nat (length options))%Z ->
  exists x, options !! Z.to_nat i = Some x /\ at_index options i = str x.
Proof.
  intros Hi. unfold at_index.
  destruct (Z.ltb_spec i 0); [lia |].
  destruct (lookup_lt_is_Some_2 options (Z.to_nat i) ltac:(lia)) as [x Hx].
  exists x. rewrite Hx. auto.
Qed.

Lemma length_positive (options : list string) :
  options <> [] -> (0 < Z.of_nat (length options))%Z.
Proof. destruct options; [contradiction | cbn; lia]. Qed.

Section Arrows.
Variable ctx : Context.
Variable options : list string.
Hypothesis registry : optionsRef ctx = Some options.
Hypothesis nonempty : options <> [].

Local Abbreviation len := (Z.of_nat (length options)).
Local Abbreviation nav := (navigationValue (data (machine ctx))).

Lemma len_positive : (0 < len)%Z.
Proof. apply length_positive, nonempty. Qed.

Lemma ArrowDown_calls :
  handleKeyDown ctx "ArrowDown"
  = PreventDefault ::
    (if bool_decide (state (machine ctx) = IDLE)
     then [Transition NAVIGATE null]
     else if (indexOf options nav =? len - 1)%Z
     then if autocompletePropRef ctx then [Transition NAVIGATE null]
          else [Transition NAVIGATE (at_index options 0)]
     else [Transition NAVIGATE
             (at_index options (Z.rem (indexOf options nav + 1) len))]).
Proof.
  pose proof len_positive as Hlen.
  unfold handleKeyDown. cbn [String.eqb Ascii.eqb Bool.eqb].
  rewrite registry.
  destruct (Z.eqb_spec len 0); [lia | reflexivity].
Qed.

Lemma ArrowUp_calls :
  handleKeyDown ctx "ArrowUp"
  = PreventDefault ::
    (if bool_decide (state (machine ctx) = IDLE)
     then [Transition NAVIGATE null]
     else if (indexOf options nav =? 0)%Z
     then if autocompletePropRef ctx then [Transition NAVIGATE null]
          else [Transition NAVIGATE (at_index options (len - 1))]
     else if (indexOf options nav =? -1)%Z
     then [Transition NAVIGATE (at_index options (len - 1))]
     else [Transition NAVIGATE
             (at_index options (Z.rem (indexOf options nav - 1 + len) len))]).
Proof.
  pose proof len_positive as Hlen.
  unfold handleKeyDown. cbn [String.eqb Ascii.eqb Bool.eqb].
  rewrite registry.
  destruct (Z.eqb_spec len 0); [lia | reflexivity].
Qed.

Lemma ArrowDown_from_idle :
  state (machine ctx) = IDLE ->
  transitions (handleKeyDown ctx "ArrowDown") = [(NAVIGATE, null)].
Proof.
  intros E. rewrite ArrowDown_calls, E. reflexivity.
Qed.

Lemma ArrowDown_at_bottom (index : Z) :
  state (machine ctx) <> IDLE -> position options nav index ->
  index = (len - 1)%Z ->
  transitions (handleKeyDown ctx "ArrowDown")
  = [(NAVIGATE, if autocompletePropRef ctx then null else at_index options 0)].
Proof.
  intros Hs Hp Hi.
  rewrite (position_unique _ _ _ _ Hp (indexOf_position options nav)) in Hi.
  rewrite ArrowDown_calls, bool_decide_eq_false_2 by exact Hs.
  rewrite Hi, Z.eqb_refl. destruct (autocompletePropRef ctx); reflexivity.
Qed.

Lemma ArrowDown_next (index : Z) :
  state (machine ctx) <> IDLE -> position options nav index ->
  index <> (len - 1)%Z ->
  transitions (handleKeyDown ctx "ArrowDown")
  = [(NAVIGATE, at_index options ((index + 1) mod len))].
Proof.
  intros Hs Hp Hi.
  pose proof (position_range _ _ _ Hp) as Hr.
  rewrite (position_unique _ _ _ _ Hp (indexOf_position options nav)) in *.
  rewrite ArrowDown_calls, bool_decide_eq_false_2 by exact Hs.
  destruct (Z.eqb_spec (indexOf options nav) (len - 1)); [contradiction |].
  rewrite Z.rem_mod_nonneg by lia. reflexivity.
Qed.

Lemma ArrowUp_from_idle :
  state (machine ctx) = IDLE ->
  transitions (handleKeyDown ctx "ArrowUp") = [(NAVIGATE, null)].
Proof.
  intros E. rewrite ArrowUp_calls, E. reflexivity.
Qed.

Lemma ArrowUp_at_top (index : Z) :
  state (machine ctx) <> IDLE -> position options nav index ->
  index = 0%Z ->
  transitions (handleKeyDown ctx "ArrowUp")
  = [(NAVIGATE,
      if autocompletePropRef ctx then null else at_index options (len - 1))].
Proof.
  intros Hs Hp Hi.
  rewrite (position_unique _ _ _ _ Hp (indexOf_position options nav)) in Hi.
  rewrite ArrowUp_calls, bool_decide_eq_false_2 by exact Hs.
  rewrite Hi. cbn. destruct (autocompletePropRef ctx); reflexivity.
Qed.

Lemma ArrowUp_absent (index : Z) :
  state (machine ctx) <> IDLE -> position options nav index ->
  index = (-1)%Z ->
  transitions (handleKeyDown ctx "ArrowUp")
  = [(NAVIGATE, at_index options (len - 1))].
Proof.
  intros Hs Hp Hi.
  rewrite (position_unique _ _ _ _ Hp (indexOf_position options nav)) in Hi.
  rewrite ArrowUp_calls, bool_decide_eq_false_2 by exact Hs.
  rewrite Hi. reflexivity.
Qed.

Lemma ArrowUp_previous (index : Z) :
  state (machine ctx) <> IDLE -> position options nav index ->
  index <> 0%Z -> index <> (-1)%Z ->
  transitions (handleKeyDown ctx "ArrowUp")
  = [(NAVIGATE, at_index options ((index - 1 + len) mod len))].
Proof.
  intros Hs Hp H0 H1.
  pose proof (position_range _ _ _ Hp) as Hr.
  rewrite (position_unique _ _ _ _ Hp (indexOf_position options nav)) in *.
  rewrite ArrowUp_calls, bool_decide_eq_false_2 by exact Hs.
  destruct (Z.eqb_spec (indexOf options nav) 0); [contradiction |].
  destruct (Z.eqb_spec (indexOf options nav) (-1)); [contradiction |].
  rewrite Z.rem_mod_nonneg by lia. reflexivity.
Qed.

End Arrows.

Lemma arrows_without_options (ctx : Context) (key : string) :
  key = "ArrowDown" \/ key = "ArrowUp" ->
  optionsRef ctx = None \/ optionsRef ctx = Some [] ->
  transitions (handleKeyDown ctx key) = [].
Proof.
  intros [-> | ->] [E | E]; unfold handleKeyDown;
    cbn [String.eqb Ascii.eqb Bool.eqb]; rewrite E; reflexivity.
Qed.

(** C3. ArrowDown with a non-empty registry: from Idle the one transition
    is Navigate(null); otherwise, with index the position of the current
    navigationValue in the registry (-1 when it is absent or null), at the
    last index the transition is Navigate(null) with autocomplete on and
    Navigate(registry[0]) with autocomplete off, and at every other index,
    -1 included, it is Navigate(registry[(index+1) mod len]). With no
    registry or an empty one ArrowDown makes no transition. *)
Theorem ArrowDown_navigates (ctx : Context) :
  (forall options, optionsRef ctx = Some options -> options <> [] ->
     let len := Z.of_nat (length options) in
     let calls := handleKeyDown ctx "ArrowDown" in
     (state (machine ctx) = IDLE -> transitions calls = [(NAVIGATE, null)])
     /\ (state (machine ctx) <> IDLE ->
         forall index,
           position options (navigationValue (data (machine ctx))) index ->
           (index = (len - 1)%Z -> autocompletePropRef ctx = true ->
            transitions calls = [(NAVIGATE, null)])
           /\ (index = (len - 1)%Z -> autocompletePropRef ctx = false ->
               exists x, options !! 0%nat = Some x
                         /\ transitions calls = [(NAVIGATE, str x)])
           /\ (index <> (len - 1)%Z ->
               exists x,
                 options !! Z.to_nat ((index + 1) mod len) = Some x
                 /\ transitions calls = [(NAVIGATE, str x)])))
  /\ (optionsRef ctx = None \/ optionsRef ctx = Some [] ->
      transitions (handleKeyDown ctx "ArrowDown") = []).
Proof.
  split; [| apply arrows_without_options; auto].
  intros options Hreg Hne len calls.
  pose proof (length_positive options Hne) as Hlen.
  split; [apply (ArrowDown_from_idle ctx options Hreg Hne) |].
  intros Hs index Hp.
  pose proof (position_range _ _ _ Hp) as Hr.
  split; [| split].
  - intros Hi Ha. subst calls.
    rewrite (ArrowDown_at_bottom ctx options Hreg Hne index Hs Hp Hi), Ha.
    reflexivity.
  - intros Hi Ha. subst calls.
    rewrite (ArrowDown_at_bottom ctx options Hreg Hne index Hs Hp Hi), Ha.
    destruct (at_index_in_range options 0 ltac:(lia)) as (x & Hx & ->).
    exists x. split; [exact Hx | reflexivity].
  - intros Hi. subst calls.
    rewrite (ArrowDown_next ctx options Hreg Hne index Hs Hp Hi).
    destruct (at_index_in_range options ((index + 1) mod len))
      as (x & Hx & Ex).
    { apply Z.mod_pos_bound. exact Hlen. }
    exists x. fold len. rewrite Ex. auto.
Qed.

(** C4. ArrowUp with a non-empty registry: from Idle the one transition is
    Navigate(null); otherwise, with the navigationValue at index 0, it is
    Navigate(null) with autocomplete on and Navigate(registry[len-1]) with
    autocomplete off; with the navigationValue absent from the registry
    (index -1) it is Navigate(registry[len-1]); at every other index it is
    Navigate(registry[(index-1+len) mod len]). With no registry or an empty
    one ArrowUp makes no transition. *)
Theorem ArrowUp_navigates (ctx : Context) :
  (forall options, optionsRef ctx = Some options -> options <> [] ->
     let len := Z.of_nat (length options) in
     let calls := handleKeyDown ctx "ArrowUp" in
     (state (machine ctx) = IDLE -> transitions calls = [(NAVIGATE, null)])
     /\ (state (machine ctx) <> IDLE ->
         forall index,
           position options (navigationValue (data (machine ctx))) index ->
           (index = 0%Z -> autocompletePropRef ctx = true ->
            transitions calls = [(NAVIGATE, null)])
           /\ (index = 0%Z -> autocompletePropRef ctx = false ->
               exists x, options !! Z.to_nat (len - 1) = Some x
                         /\ transitions calls = [(NAVIGATE, str x)])
           /\ (index = (-1)%Z ->
               exists x, options !! Z.to_nat (len - 1) = Some x
                         /\ transitions calls = [(NAVIGATE, str x)])
           /\ (index <> 0%Z -> index <> (-1)%Z ->
               exists x,
                 options !! Z.to_nat ((index - 1 + len) mod len) = Some x
                 /\ transitions calls = [(NAVIGATE, str x)])))
  /\ (optionsRef ctx = None \/ optionsRef ctx = Some [] ->
      transitions (handleKeyDown ctx "ArrowUp") = []).
Proof.
  split; [| apply arrows_without_options; auto].
  intros options Hreg Hne len calls.
  pose proof (length_positive options Hne) as Hlen.
  split; [apply (ArrowUp_from_idle ctx options Hreg Hne) |].
  intros Hs index Hp.
  pose proof (position_range _ _ _ Hp) as Hr.
  destruct (at_index_in_range options (len - 1) ltac:(subst len; lia))
    as (l & Hl & El).
  split; [| split; [| split]].
  - intros Hi Ha. subst calls.
    rewrite (ArrowUp_at_top ctx options Hreg Hne index Hs Hp Hi), Ha.
    reflexivity.
  - intros Hi Ha. subst calls.
    rewrite (ArrowUp_at_top ctx options Hreg Hne index Hs Hp Hi), Ha.
    exists l. fold len. rewrite El. auto.
  - intros Hi. subst calls.
    rewrite (ArrowUp_absent ctx options Hreg Hne index Hs Hp Hi).
    exists l. fold len. rewrite El. auto.
  - intros H0 H1. subst calls.
    rewrite (ArrowUp_previous ctx options Hreg Hne index Hs Hp H0 H1).
    destruct (at_index_in_range options ((index - 1 + len) mod len))
      as (x & Hx & Ex).
    { apply Z.mod_pos_bound. exact Hlen. }
    exists x. fold len. rewrite Ex. auto.
Qed.

Lemma position_Cherry : position fruits (str "Cherry") 2.
Proof.
  right. exists "Cherry". repeat split; [lia | ].
  intros [| [| j]] Hj; cbn; [discriminate | discriminate | lia].
Qed.

Lemma position_Apple : position fruits (str "Apple") 0.
Proof.
  right. exists "Apple". repeat split; [lia | ].
  intros j Hj. cbn in Hj. lia.
Qed.

(** The theorem at the last of three options with autocomplete off: the
    navigation wraps to the first. *)
Lemma ArrowDown_navigates_witness :
  exists x, fruits !! 0%nat = Some x
            /\ transitions
                 (handleKeyDown (navigating fruits (str "Cherry") true false)
                                "ArrowDown")
               = [(NAVIGATE, str x)].
Proof.
  refine (proj1 (proj2 (proj2
    (proj1 (ArrowDown_navigates (navigating fruits (str "Cherry") true false))
       fruits _ _) _ 2%Z _)) _ _).
  - reflexivity.
  - discriminate.
  - discriminate.
  - exact position_Cherry.
  - reflexivity.
  - reflexivity.
Defined.

(** The theorem at the first of three options with autocomplete off: the
    navigation wraps to the last. *)
Lemma ArrowUp_navigates_witness :
  exists x, fruits !! 2%nat = Some x
            /\ transitions
                 (handleKeyDown (navigating fruits (str "Apple") true false)
                                "ArrowUp")
               = [(NAVIGATE, str x)].
Proof.
  refine (proj1 (proj2 (proj2
    (proj1 (ArrowUp_navigates (navigating fruits (str "Apple") true false))
       fruits _ _) _ 0%Z _)) _ _).
  - reflexivity.
  - discriminate.
  - discriminate.
  - exact position_Apple.
  - reflexivity.
  - reflexivity.
Defined.

(** *** Enter *)

Lemma Enter_calls (ctx : Context) :
  handleKeyDown ctx "Enter"
  = if bool_decide (state (machine ctx) = NAVIGATING)
       && negb (strict_eq (navigationValue (data (machine ctx))) null)
    then PreventDefault ::
         call_onSelect ctx (navigationValue (data (machine ctx))) ++
         [Transition SELECT_WITH_KEYBOARD undefined]
    else [].
Proof. reflexivity. Qed.

Lemma Enter_guard_decides (ctx : Context) :
  bool_decide (state (machine ctx) = NAVIGATING)
  && negb (strict_eq (navigationValue (data (machine ctx))) null) = true
  <-> Enter_guard ctx.
Proof.
  unfold Enter_guard, strict_eq.
  rewrite andb_true_iff, negb_true_iff, bool_decide_eq_true,
    bool_decide_eq_false.
  reflexivity.
Qed.

(** While navigating "Banana" with no [onSelect] prop, Enter makes the
    transition and calls nothing. *)
Lemma Enter_without_onSelect :
  Enter_guard (navigating fruits (str "Banana") false true)
  /\ selections
       (handleKeyDown (navigating fruits (str "Banana") false true) "Enter")
     = []
  /\ ~ Enter_always_selects (navigating fruits (str "Banana") false true).
Proof.
  assert (G : Enter_guard (navigating fruits (str "Banana") false true))
    by (split; [reflexivity | discriminate]).
  split; [exact G | split; [reflexivity |]].
  intros [_ H]. destruct (H G) as [F _]. discriminate F.
Qed.

(** Enter with or without an [onSelect] prop: the SelectWithKeyboard
    transition is made if and only if the state is Navigating and
    navigationValue is not null; in that case [onSelect], when the
    combobox was given one, is called exactly once, with the
    navigationValue, and is not called when none was given; in every other
    case Enter calls nothing at all. *)
Theorem Enter_selects (ctx : Context) :
  let calls := handleKeyDown ctx "Enter" in
  let nav := navigationValue (data (machine ctx)) in
  (transitions calls = [(SELECT_WITH_KEYBOARD, undefined)] <-> Enter_guard ctx)
  /\ (onSelect ctx = true -> (selections calls = [nav] <-> Enter_guard ctx))
  /\ (onSelect ctx = false -> selections calls = [])
  /\ (~ Enter_guard ctx -> calls = []).
Proof.
  intros calls nav. subst calls nav. rewrite Enter_calls.
  pose proof (Enter_guard_decides ctx) as G.
  destruct (bool_decide _ && negb _) eqn:E.
  - assert (Hg : Enter_guard ctx) by (apply G; reflexivity).
    unfold call_onSelect.
    split; [| split; [| split]].
    + split; [intros _; exact Hg |].
      intros _. destruct (onSelect ctx); reflexivity.
    + intros ->. split; [intros _; exact Hg | reflexivity].
    + intros ->. reflexivity.
    + intros Hn. contradiction.
  - assert (Hg : ~ Enter_guard ctx) by (rewrite <- G; discriminate).
    split; [| split; [| split]].
    + split; [discriminate | intros; contradiction].
    + intros _. split; [discriminate | intros; contradiction].
    + reflexivity.
    + reflexivity.
Qed.

(** The theorem while navigating "Banana" with an [onSelect] prop. *)
Lemma Enter_selects_witness :
  onSelect (navigating fruits (str "Banana") true true) = true
  /\ Enter_guard (navigating fruits (str "Banana") true true)
  /\ selections
       (handleKeyDown (navigating fruits (str "Banana") true true) "Enter")
     = [str "Banana"].
Proof.
  assert (G : Enter_guard (navigating fruits (str "Banana") true true))
    by (split; [reflexivity | discriminate]).
  split; [reflexivity | split; [exact G |]].
  apply (proj1 (proj2 (Enter_selects (navigating fruits (str "Banana") true true)))
           eq_refl).
  exact G.
Defined.

(** C5. On Enter the selection callback [onSelect] is called exactly once,
    with the current navigationValue, and a SelectWithKeyboard transition
    is made, if and only if the state is Navigating and navigationValue is
    not null; in every other case, Navigating with a null navigationValue
    included, Enter selects nothing and makes no transition. *)
Theorem Enter_selects_iff_guard (ctx : Context) :
  onSelect ctx = true ->
  let calls := handleKeyDown ctx "Enter" in
  ((selections calls = [navigationValue (data (machine ctx))]
    /\ transitions calls = [(SELECT_WITH_KEYBOARD, undefined)])
   <-> (state (machine ctx) = NAVIGATING
        /\ navigationValue (data (machine ctx)) <> null))
  /\ (~ (state (machine ctx) = NAVIGATING
         /\ navigationValue (data (machine ctx)) <> null) ->
      selections calls = [] /\ transitions calls = []).
Proof.
  intros Hsel calls. subst calls. rewrite Enter_calls.
  pose proof (Enter_guard_decides ctx) as G. unfold Enter_guard in G.
  unfold call_onSelect. rewrite Hsel.
  destruct (bool_decide _ && negb _).
  - assert (Hg : state (machine ctx) = NAVIGATING
                 /\ navigationValue (data (machine ctx)) <> null)
      by (apply G; reflexivity).
    split.
    + split; [intros _; exact Hg | intros _; split; reflexivity].
    + intros Hn. contradiction.
  - split.
    + split; [intros [F _]; discriminate F |].
      intros Hg. apply G in Hg. discriminate Hg.
    + intros _. split; reflexivity.
Qed.

(** The theorem while navigating "Banana", and while navigating with
    nothing highlighted. *)
Lemma Enter_selects_iff_guard_witness :
  onSelect (navigating fruits (str "Banana") true true) = true
  /\ (selections
        (handleKeyDown (navigating fruits (str "Banana") true true) "Enter")
      = [str "Banana"]
      /\ transitions
           (handleKeyDown (navigating fruits (str "Banana") true true) "Enter")
         = [(SELECT_WITH_KEYBOARD, undefined)])
  /\ (selections (handleKeyDown (navigating fruits null true true) "Enter")
      = []
      /\ transitions (handleKeyDown (navigating fruits null true true) "Enter")
         = []).
Proof.
  split; [reflexivity | split].
  - apply (proj1 (Enter_selects_iff_guard
                    (navigating fruits (str "Banana") true true) eq_refl)).
    split; [reflexivity | discriminate].
  - apply (proj2 (Enter_selects_iff_guard
                    (navigating fruits null true true) eq_refl)).
    intros [_ H]. apply H. reflexivity.
Defined.

(** ** The controlled value *)

Lemma transition_CHANGE (m : Machine) (v : JSVal) :
  combobox_transition m CHANGE v
  = Ok {| state := SUGGESTING;
          data := {| value := v; navigationValue := null;
                     lastActionType := str CHANGE |} |}.
Proof. destruct m as [[] d]; reflexivity. Qed.

Lemma transition_CLEAR (m : Machine) (v : JSVal) :
  state m <> INTERACTING ->
  combobox_transition m CLEAR v
  = Ok {| state := IDLE;
          data := {| value := str ""; navigationValue := null;
                     lastActionType := str CLEAR |} |}.
Proof. destruct m as [[] d]; cbn; intros H; try reflexivity; contradiction. Qed.

Lemma syncControlled_differs (ctx : Context) (controlled : string) :
  str controlled <> value (data (machine ctx)) ->
  syncControlled ctx (str controlled) = handleValueChange controlled.
Proof.
  intros H. unfold syncControlled, strict_eq.
  rewrite bool_decide_eq_false_2 by exact H. reflexivity.
Qed.

Lemma syncControlled_same (ctx : Context) (controlled : JSVal) :
  controlled = value (data (machine ctx)) ->
  syncControlled ctx controlled = [].
Proof.
  intros H. unfold syncControlled, strict_eq.
  rewrite bool_decide_eq_true_2 by exact H.
  rewrite andb_false_r. reflexivity.
Qed.

(** A controlled value of one space on a fresh combobox: Clear is emitted,
    the value of the data stays empty, and the next render emits Clear
    again. *)
Lemma sync_single_space :
  str " " <> value (data (machine (mounted None)))
  /\ syncControlled (mounted None) (str " ") = [Transition CLEAR undefined]
  /\ (exists m',
        run (machine (mounted None)) [Transition CLEAR undefined] = Ok m'
        /\ value (data m') = str ""
        /\ syncControlled (rerender (mounted None) m') (str " ")
           = [Transition CLEAR undefined])
  /\ ~ sync_settles (mounted None) " ".
Proof.
  split; [discriminate |].
  split; [reflexivity |].
  split; [eexists; repeat split; reflexivity |].
  intros H. destruct H as (action & payload & m' & Hc & _ & Hr & Hv & _).
  - discriminate.
  - injection Hc as <- <-. vm_compute in Hr. injection Hr as <-.
    discriminate Hv.
Qed.

(** The same for every controlled value of white space only: whenever its
    Clear goes through, the next render emits Clear again. *)
Lemma sync_whitespace_repeats (ctx : Context) (controlled : string) (m' : Machine) :
  trim controlled = "" -> controlled <> "" ->
  run (machine ctx) [Transition CLEAR undefined] = Ok m' ->
  syncControlled (rerender ctx m') (str controlled)
  = [Transition CLEAR undefined].
Proof.
  intros Ht Hne Hr.
  assert (Hv : value (data m') = str "").
  { unfold run, run_from in Hr. destruct (state (machine ctx));
      cbn in Hr; try discriminate; injection Hr as <-; reflexivity. }
  rewrite syncControlled_differs.
  - unfold handleValueChange. rewrite Ht. reflexivity.
  - cbn. rewrite Hv. intros [= E]. contradiction.
Qed.

(** An empty controlled value while the user interacts with the popup: the
    Clear it emits is not in the table of Interacting. *)
Lemma sync_empty_while_interacting :
  run {| state := INTERACTING;
         data := {| value := str "ap"; navigationValue := null;
                    lastActionType := str INTERACT |} |}
      (handleValueChange "")
  = Throw (UnknownActionForState CLEAR INTERACTING).
Proof. vm_compute. reflexivity. Qed.

(** C7, amended. When the controlled value is a string that differs from
    the value of the data, the render emits one action: Clear when the
    controlled value is empty or white space only, Change with the
    controlled value otherwise. When the controlled value has a character
    that is not white space, or when it is empty and the state is not
    Interacting, that action succeeds, the value of the data is then the
    controlled value, and the next render emits nothing for it. *)
Theorem sync_settles_amended (ctx : Context) (controlled : string) :
  str controlled <> value (data (machine ctx)) ->
  let calls := syncControlled ctx (str controlled) in
  (trim controlled = "" -> calls = [Transition CLEAR undefined])
  /\ (trim controlled <> "" -> calls = [Transition CHANGE (str controlled)])
  /\ (trim controlled <> ""
      \/ (controlled = "" /\ state (machine ctx) <> INTERACTING) ->
      exists m',
        run (machine ctx) calls = Ok m'
        /\ value (data m') = str controlled
        /\ syncControlled (rerender ctx m') (str controlled) = []).
Proof.
  intros Hd calls. subst calls.
  rewrite (syncControlled_differs ctx controlled Hd).
  unfold handleValueChange.
  destruct (String.eqb_spec (trim controlled) "") as [E | E].
  - split; [reflexivity | split; [contradiction |]].
    intros [H | [-> Hs]]; [contradiction |].
    unfold run, run_from.
    rewrite transition_CLEAR by exact Hs.
    eexists. split; [reflexivity | split; [reflexivity |]].
    apply syncControlled_same. reflexivity.
  - split; [contradiction | split; [reflexivity |]].
    intros _. unfold run, run_from. rewrite transition_CHANGE.
    eexists. split; [reflexivity | split; [reflexivity |]].
    apply syncControlled_same. reflexivity.
Qed.

(** The theorem at the controlled value "ap" on a fresh combobox. *)
Lemma sync_settles_amended_witness :
  str "ap" <> value (data (machine (mounted None)))
  /\ trim "ap" <> ""
  /\ (exists m',
        run (machine (mounted None)) (syncControlled (mounted None) (str "ap"))
        = Ok m'
        /\ value (data m') = str "ap"
        /\ syncControlled (rerender (mounted None) m') (str "ap") = []).
Proof.
  assert (H1 : str "ap" <> value (data (machine (mounted None))))
    by discriminate.
  assert (H2 : trim "ap" <> "") by discriminate.
  split; [exact H1 | split; [exact H2 |]].
  apply (proj2 (proj2 (sync_settles_amended (mounted None) "ap" H1))).
  left. exact H2.
Defined.

(** ** Option identity *)

Lemma toInt32_range (z : Z) : (- 2 ^ 31 <= toInt32 z < 2 ^ 31)%Z.
Proof.
  unfold toInt32.
  pose proof (Z.mod_pos_bound z (2 ^ 32) ltac:(lia)) as H.
  destruct (Z.leb_spec (2 ^ 31) (z mod 2 ^ 32)); lia.
Qed.

Lemma toInt32_congruent (a b : Z) :
  (a mod 2 ^ 32 = b mod 2 ^ 32)%Z -> toInt32 a = toInt32 b.
Proof. unfold toInt32. intros ->. reflexivity. Qed.

Lemma toInt32_mod (z : Z) : (toInt32 z mod 2 ^ 32 = z mod 2 ^ 32)%Z.
Proof.
  unfold toInt32.
  destruct (Z.leb_spec (2 ^ 31) (z mod 2 ^ 32)).
  - rewrite <- (Z.mod_add _ 1) by lia.
    replace (z mod 2 ^ 32 - 2 ^ 32 + 1 * 2 ^ 32)%Z with (z mod 2 ^ 32)%Z
      by lia.
    apply Z.mod_mod. lia.
  - apply Z.mod_mod. lia.
Qed.

(** The hash is the 32-bit wrap of [31 * hash + char]. *)
Lemma makeHash_step_wraps (hash char : Z) :
  makeHash_step hash char = toInt32 (shl32 hash 5 - hash + char).
Proof.
  unfold makeHash_step, and32. apply Z.land_diag.
Qed.

(** Which is the step of the polynomial hash in base 31. *)
Lemma makeHash_step_31 (hash char : Z) :
  makeHash_step hash char = toInt32 (31 * hash + char).
Proof.
  rewrite makeHash_step_wraps. apply toInt32_congruent.
  unfold shl32. change (5 mod 32)%Z with 5%Z.
  rewrite Z.shiftl_mul_pow2 by lia.
  rewrite <- Z.add_sub_swap, <- Z.add_sub_assoc.
  rewrite Z.add_mod, toInt32_mod by lia.
  rewrite Z.mul_mod, toInt32_mod by lia.
  rewrite <- Z.mul_mod, <- Z.add_mod by lia.
  f_equal. lia.
Qed.

Lemma makeHash_int32 (s : string) : (- 2 ^ 31 <= makeHash s < 2 ^ 31)%Z.
Proof.
  unfold makeHash. destruct (Nat.eqb _ 0); [lia |].
  generalize (charCodes s). intros l.
  assert (H : (- 2 ^ 31 <= 0 < 2 ^ 31)%Z) by lia.
  revert H. generalize 0%Z. induction l as [| c l IH]; intros h Hh; cbn.
  - exact Hh.
  - apply IH. rewrite makeHash_step_wraps. apply toInt32_range.
Qed.

Example makeHash_empty : makeHash "" = 0%Z.
Proof. reflexivity. Qed.

Example makeHash_Apple : makeHash "Apple" = 63476538%Z.
Proof. vm_compute. reflexivity. Qed.

Example makeHash_wraps :
  makeHash "The quick brown fox jumps over the lazy dog" = (-609428141)%Z.
Proof. vm_compute. reflexivity. Qed.

(** A list whose first option has the empty string as its value: two
    ArrowDown keys navigate to it, and the input then has no
    [aria-activedescendant], though the navigation value is the empty
    string and not null. *)
Lemma activedescendant_of_empty_value :
  let ctx := mounted (Some [""; "Apple"]) in
  exists m1 m2,
    run (machine ctx) (handleKeyDown ctx "ArrowDown") = Ok m1
    /\ run m1 (handleKeyDown (rerender ctx m1) "ArrowDown") = Ok m2
    /\ navigationValue (data m2) = str ""
    /\ aria_activedescendant (rerender ctx m2) = None
    /\ ~ activedescendant_of_non_null (rerender ctx m2).
Proof.
  cbv zeta. do 2 eexists.
  split; [vm_compute; reflexivity |].
  split; [vm_compute; reflexivity |].
  split; [reflexivity |].
  split; [reflexivity |].
  intros [_ H]. destruct H as (v & Hv & Ha); [discriminate |].
  discriminate Ha.
Qed.

(** What the code computes: the id of an option is the hash of its value,
    so equal values get equal ids at whatever position and in whatever
    registry they are rendered; the input's active-descendant reference is
    the hash of navigationValue when navigationValue is a non-empty
    string, and is left out when navigationValue is null or the empty
    string. *)
Theorem option_identity :
  (forall v, option_id v = makeHash v)
  /\ (forall (options1 options2 : list string) (i j : nat) (v : string),
        options1 !! i = Some v -> options2 !! j = Some v ->
        rendered_ids options1 !! i = Some (v, makeHash v)
        /\ rendered_ids options2 !! j = Some (v, makeHash v))
  /\ (forall ctx v,
        navigationValue (data (machine ctx)) = str v -> v <> "" ->
        aria_activedescendant ctx = Some (makeHash v))
  /\ (forall ctx,
        navigationValue (data (machine ctx)) = null
        \/ navigationValue (data (machine ctx)) = str "" ->
        aria_activedescendant ctx = None).
Proof.
  split; [reflexivity |].
  split; [| split].
  - intros options1 options2 i j v H1 H2. unfold rendered_ids.
    rewrite !list_lookup_fmap, H1, H2. split; reflexivity.
  - intros ctx v Hn Hv. unfold aria_activedescendant. rewrite Hn. cbn.
    destruct (String.eqb_spec v ""); [contradiction | reflexivity].
  - intros ctx [Hn | Hn]; unfold aria_activedescendant; rewrite Hn;
      reflexivity.
Qed.

(** The theorem at "Banana": the same id second in one registry and first
    in another, and the reference of an input navigating it. *)
Lemma option_identity_witness :
  (rendered_ids fruits !! 1%nat = Some ("Banana", makeHash "Banana")
   /\ rendered_ids ["Banana"; "Apple"] !! 0%nat
      = Some ("Banana", makeHash "Banana"))
  /\ aria_activedescendant (navigating fruits (str "Banana") true true)
     = Some (makeHash "Banana").
Proof.
  split.
  - apply (proj1 (proj2 option_identity) fruits ["Banana"; "Apple"] 1%nat 0%nat
             "Banana"); reflexivity.
  - apply (proj1 (proj2 (proj2 option_identity))
             (navigating fruits (str "Banana") true true) "Banana").
    + reflexivity.
    + discriminate.
Defined.

(** C9. The input's active-descendant reference is to be the hash of
    navigationValue whenever navigationValue is not null. The test of line
    354 is one of truthiness, and misses the empty string: in a list whose
    first option has the empty string as value, two ArrowDown keys
    navigate to that option; its navigationValue is not null, the option
    is marked selected and has the id 0, Enter would select it, and yet
    the input carries no active-descendant reference, where the hash of
    navigationValue, 0, was due. *)
Theorem activedescendant_missing_for_empty_value :
  let ctx := mounted (Some [""; "Apple"]) in
  exists m1 m2,
    run (machine ctx) (handleKeyDown ctx "ArrowDown") = Ok m1
    /\ run m1 (handleKeyDown (rerender ctx m1) "ArrowDown") = Ok m2
    /\ navigationValue (data m2) = str ""
    /\ navigationValue (data m2) <> null
    /\ isActive (rerender ctx m2) "" = true
    /\ option_id "" = 0%Z
    /\ transitions (handleKeyDown (rerender ctx m2) "Enter")
       = [(SELECT_WITH_KEYBOARD, undefined)]
    /\ makeHash "" = 0%Z
    /\ aria_activedescendant (rerender ctx m2) = None
    /\ aria_activedescendant (rerender ctx m2) <> Some (makeHash "").
Proof.
  cbv zeta. do 2 eexists.
  split; [vm_compute; reflexivity |].
  split; [vm_compute; reflexivity |].
  split; [reflexivity |].
  split; [discriminate |].
  split; [reflexivity |].
  split; [reflexivity |].
  split; [reflexivity |].
  split; [reflexivity |].
  split; [reflexivity | discriminate].
Qed.

(** ** The scenario of the specification *)

(** Registry Apple, Banana, Cherry, from Idle: ArrowDown opens the list
    with nothing highlighted, two more ArrowDown keys reach Banana, and
    Enter calls [onSelect] once with it and leaves the machine Idle with
    Banana as value. *)
Example scenario :
  let ctx0 := mounted (Some fruits) in
  exists m1 m2 m3 m4,
    run (machine ctx0) (handleKeyDown ctx0 "ArrowDown") = Ok m1
    /\ (state m1 = NAVIGATING /\ navigationValue (data m1) = null)
    /\ run m1 (handleKeyDown (rerender ctx0 m1) "ArrowDown") = Ok m2
    /\ navigationValue (data m2) = str "Apple"
    /\ run m2 (handleKeyDown (rerender ctx0 m2) "ArrowDown") = Ok m3
    /\ navigationValue (data m3) = str "Banana"
    /\ selections (handleKeyDown (rerender ctx0 m3) "Enter") = [str "Banana"]
    /\ run m3 (handleKeyDown (rerender ctx0 m3) "Enter") = Ok m4
    /\ (state m4 = IDLE /\ value (data m4) = str "Banana").
Proof.
  cbv zeta. do 4 eexists.
  split; [vm_compute; reflexivity |].
  split; [split; reflexivity |].
  split; [vm_compute; reflexivity |].
  split; [reflexivity |].
  split; [vm_compute; reflexivity |].
  split; [reflexivity |].
  split; [vm_compute; reflexivity |].
  split; [vm_compute; reflexivity |].
  split; reflexivity.
Qed.

(** * Further properties of the combobox *)

(** ** The driver *)

Lemma run_from_transitions (captured : State) (m : Machine) (calls : list Call) :
  run_from captured m calls
  = run_from captured m
      (map (fun t => Transition (fst t) (snd t)) (transitions calls)).
Proof.
  revert m. induction calls as [| c calls IH]; intros m; [reflexivity |].
  destruct c as [| v | action payload]; cbn; try apply IH.
  destruct (combobox_transition _ action payload); [apply IH | reflexivity].
Qed.

Lemma run_no_transition (m : Machine) (calls : list Call) :
  transitions calls = [] -> run m calls = Ok m.
Proof.
  intros H. unfold run. rewrite run_from_transitions, H. reflexivity.
Qed.

Lemma run_one_transition (m : Machine) (calls : list Call)
  (action : string) (payload : JSVal) :
  transitions calls = [(action, payload)] ->
  run m calls = combobox_transition m action payload.
Proof.
  intros H. unfold run. rewrite run_from_transitions, H. cbn.
  destruct m as [s d]. cbn.
  destruct (combobox_transition _ action payload); reflexivity.
Qed.

Lemma chart_target (s s' : State) (A : string) :
  on (states stateChart s) !! A = Some s' -> s' = target A.
Proof.
  intros H.
  assert (L : A ∈ legalActions s) by (apply chart_keys; eauto).
  destruct s; unfold legalActions in L;
    rewrite !elem_of_cons, elem_of_nil in L;
    repeat destruct L as [-> | L]; try contradiction;
    vm_compute in H; injection H as <-; reflexivity.
Qed.

Lemma transition_inv (m m' : Machine) (A : string) (payload : JSVal) :
  combobox_transition m A payload = Ok m' ->
  A ∈ legalActions (state m)
  /\ state m' = target A
  /\ reducer (data m) (Action.mk A payload) = Ok (data m').
Proof.
  unfold combobox_transition, transition.
  destruct (on (states stateChart (state m)) !! A) as [s' |] eqn:E;
    [| discriminate].
  destruct (reducer (data m) (Action.mk A payload)) as [d' |] eqn:R;
    [| discriminate].
  intros [= <-]. cbn.
  split; [apply chart_keys; eauto |].
  split; [apply (chart_target _ _ _ E) | reflexivity].
Qed.

Lemma transition_legal (m : Machine) (A : string) (payload : JSVal) :
  A ∈ legalActions (state m) -> succeeds (combobox_transition m A payload).
Proof.
  intros L. unfold combobox_transition, transition.
  destruct (proj2 (chart_keys (state m) A) L) as [s' ->].
  destruct (reducer_declared (data m) A payload (legal_is_declared _ _ L))
    as [d' ->].
  eexists. reflexivity.
Qed.

Lemma reducer_lastActionType (d d' : Data) (a : Action.t) :
  reducer d a = Ok d' -> lastActionType d' = str (Action.type a).
Proof.
  destruct (decide (Action.type a ∈ actionTypes)) as [H | H].
  - destruct a as [type v]. cbn in *. unfold actionTypes in H.
    rewrite !elem_of_cons, elem_of_nil in H.
    repeat destruct H as [-> | H]; try contradiction;
      intros [= <-]; reflexivity.
  - rewrite (reducer_undeclared d a H). discriminate.
Qed.

(** X1. A transition that succeeds ends in the state its action type
    names, whatever state it left: Suggesting for Change, Navigating for
    Navigate, Interacting for Interact, Idle for the others; its data is
    the reducer's result on the data it left, with the action type as
    lastActionType. *)
Theorem transition_outcome (m m' : Machine) (A : string) (payload : JSVal) :
  combobox_transition m A payload = Ok m' ->
  state m' = target A
  /\ reducer (data m) (Action.mk A payload) = Ok (data m')
  /\ lastActionType (data m') = str A.
Proof.
  intros H. destruct (transition_inv _ _ _ _ H) as (_ & Hs & Hr).
  split; [exact Hs | split; [exact Hr |]].
  apply (reducer_lastActionType _ _ _ Hr).
Qed.

Lemma transition_outcome_witness :
  combobox_transition (machine (navigating fruits (str "Banana") true true))
    SELECT_WITH_KEYBOARD undefined
  = Ok {| state := IDLE;
          data := {| value := str "Banana"; navigationValue := null;
                     lastActionType := str SELECT_WITH_KEYBOARD |} |}
  /\ IDLE = target SELECT_WITH_KEYBOARD.
Proof.
  assert (H : combobox_transition
                (machine (navigating fruits (str "Banana") true true))
                SELECT_WITH_KEYBOARD undefined
              = Ok {| state := IDLE;
                      data := {| value := str "Banana";
                                 navigationValue := null;
                                 lastActionType := str SELECT_WITH_KEYBOARD |} |})
    by (vm_compute; reflexivity).
  split; [exact H |].
  exact (proj1 (transition_outcome _ _ _ _ H)).
Defined.

(** X2. Of the declared action types, Change, Navigate and Blur are the
    ones that succeed from every state with every payload; each of the
    other five throws from some state. *)
Theorem always_legal (A : string) :
  A ∈ actionTypes ->
  (forall m payload, succeeds (combobox_transition m A payload))
  <-> A ∈ [CHANGE; NAVIGATE; BLUR].
Proof.
  intros HA. split.
  - intros H.
    destruct (H {| state := IDLE; data := defaultData |} undefined)
      as [m1 H1].
    destruct (H {| state := INTERACTING; data := defaultData |} undefined)
      as [m2 H2].
    unfold actionTypes in HA. rewrite !elem_of_cons, elem_of_nil in HA.
    repeat destruct HA as [-> | HA]; try contradiction;
      try discriminate H1; try discriminate H2;
      rewrite !elem_of_cons; auto.
  - rewrite !elem_of_cons, elem_of_nil. intros H m payload.
    apply transition_legal.
    destruct (state m); unfold legalActions;
      repeat destruct H as [-> | H]; try contradiction;
      rewrite !elem_of_cons; auto 10.
Qed.

Lemma always_legal_witness :
  CLEAR ∈ actionTypes
  /\ ~ (forall m payload, succeeds (combobox_transition m CLEAR payload)).
Proof.
  assert (H : CLEAR ∈ actionTypes) by decide_now.
  split; [exact H |].
  intros F. apply (proj1 (always_legal CLEAR H)) in F.
  revert F. decide_now.
Defined.

(** X3. After a transition that succeeds the popup is open exactly when
    the action was Change, Navigate or Interact; every other action closes
    it. *)
Theorem popup_open_after (m m' : Machine) (A : string) (payload : JSVal) :
  combobox_transition m A payload = Ok m' ->
  isVisible (state m') = true <-> A ∈ [CHANGE; NAVIGATE; INTERACT].
Proof.
  intros H. destruct (transition_inv _ _ _ _ H) as (L & -> & _).
  apply legal_is_declared in L. unfold actionTypes in L.
  rewrite !elem_of_cons, elem_of_nil in L.
  repeat destruct L as [-> | L]; try contradiction;
    (split; [intros E; try discriminate E | intros E]);
    try reflexivity; try decide_now; exfalso; revert E; decide_now.
Qed.

Lemma popup_open_after_witness :
  combobox_transition combobox_initial CHANGE (str "ap")
  = Ok {| state := SUGGESTING;
          data := {| value := str "ap"; navigationValue := null;
                     lastActionType := str CHANGE |} |}
  /\ isVisible SUGGESTING = true.
Proof.
  split; [vm_compute; reflexivity |].
  apply (proj2 (popup_open_after combobox_initial
                  {| state := SUGGESTING;
                     data := {| value := str "ap"; navigationValue := null;
                                lastActionType := str CHANGE |} |}
                  CHANGE (str "ap") ltac:(vm_compute; reflexivity))).
  decide_now.
Defined.

(** X4. Focus is sent back to the input after a render exactly when the
    last transition that succeeded was a Navigate or an Escape; a combobox
    that has made no transition yet does not move focus. *)
Theorem focus_returns_after (m m' : Machine) (A : string) (payload : JSVal) :
  useFocusManagement (lastActionType defaultData) = false
  /\ (combobox_transition m A payload = Ok m' ->
      useFocusManagement (lastActionType (data m')) = true
      <-> A = NAVIGATE \/ A = ESCAPE).
Proof.
  split; [reflexivity |].
  intros H. destruct (transition_inv _ _ _ _ H) as (_ & _ & Hr).
  rewrite (reducer_lastActionType _ _ _ Hr). cbn [Action.type].
  unfold useFocusManagement, strict_eq.
  rewrite orb_true_iff, !bool_decide_eq_true.
  split; (intros [E | E]; [left | right]); congruence.
Qed.

Lemma focus_returns_after_witness :
  useFocusManagement
    (lastActionType
       (data {| state := IDLE;
                data := {| value := str ""; navigationValue := null;
                           lastActionType := str ESCAPE |} |})) = true.
Proof.
  apply (proj2 (focus_returns_after
                  (machine (navigating fruits (str "Banana") true true))
                  _ ESCAPE undefined)
           ltac:(vm_compute; reflexivity)).
  right. reflexivity.
Defined.

(** ** The handlers *)

Lemma handleKeyDown_other (ctx : Context) (key : string) :
  key <> "ArrowDown" -> key <> "ArrowUp" -> key <> "Escape" ->
  key <> "Enter" -> handleKeyDown ctx key = [].
Proof.
  intros H1 H2 H3 H4. unfold handleKeyDown.
  rewrite (proj2 (String.eqb_neq _ _) H1), (proj2 (String.eqb_neq _ _) H2),
    (proj2 (String.eqb_neq _ _) H3), (proj2 (String.eqb_neq _ _) H4).
  reflexivity.
Qed.

Lemma key_cases (key : string) :
  key = "ArrowDown" \/ key = "ArrowUp" \/ key = "Escape" \/ key = "Enter"
  \/ (key <> "ArrowDown" /\ key <> "ArrowUp" /\ key <> "Escape"
      /\ key <> "Enter").
Proof.
  destruct (String.eqb_spec key "ArrowDown"); [tauto |].
  destruct (String.eqb_spec key "ArrowUp"); [tauto |].
  destruct (String.eqb_spec key "Escape"); [tauto |].
  destruct (String.eqb_spec key "Enter"); tauto.
Qed.

Lemma Escape_calls (ctx : Context) :
  handleKeyDown ctx "Escape"
  = if negb (bool_decide (state (machine ctx) = IDLE))
    then [Transition ESCAPE undefined] else [].
Proof. reflexivity. Qed.

Lemma Enter_transitions (ctx : Context) :
  transitions (handleKeyDown ctx "Enter")
  = if bool_decide (state (machine ctx) = NAVIGATING)
       && negb (strict_eq (navigationValue (data (machine ctx))) null)
    then [(SELECT_WITH_KEYBOARD, undefined)] else [].
Proof.
  rewrite Enter_calls. destruct (bool_decide _ && negb _); [| reflexivity].
  unfold call_onSelect. destruct (onSelect ctx); reflexivity.
Qed.

Lemma handleClick_transitions (ctx : Context) (v : string) :
  transitions (handleClick ctx v) = [(SELECT_WITH_CLICK, str v)].
Proof.
  unfold handleClick, call_onSelect. destruct (onSelect ctx); reflexivity.
Qed.

Lemma arrow_transitions (ctx : Context) (key : string) :
  key = "ArrowDown" \/ key = "ArrowUp" ->
  transitions (handleKeyDown ctx key) = []
  \/ transitions (handleKeyDown ctx key) = [(NAVIGATE, null)]
  \/ (exists options x,
        optionsRef ctx = Some options /\ x ∈ options
        /\ transitions (handleKeyDown ctx key) = [(NAVIGATE, str x)]).
Proof.
  intros Hk.
  destruct (optionsRef ctx) as [options |] eqn:Hreg;
    [| left; apply arrows_without_options; auto].
  destruct (decide (options = [])) as [-> | Hne];
    [left; apply arrows_without_options; auto |].
  pose proof (length_positive options Hne) as Hlen.
  pose proof (position_range _ _ _
                (indexOf_position options
                   (navigationValue (data (machine ctx))))) as Hr.
  assert (In_range : forall i,
             (0 <= i < Z.of_nat (length options))%Z ->
             exists options' x,
               Some options = Some options' /\ x ∈ options'
               /\ transitions [PreventDefault;
                               Transition NAVIGATE (at_index options i)]
                  = [(NAVIGATE, str x)]).
  { intros i Hi. destruct (at_index_in_range options i Hi) as (x & Hx & ->).
    exists options, x.
    split; [reflexivity |].
    split; [eapply list_elem_of_lookup_2; exact Hx | reflexivity]. }
  destruct Hk as [-> | ->].
  - rewrite (ArrowDown_calls ctx options Hreg Hne).
    destruct (bool_decide _); [right; left; reflexivity |].
    destruct (Z.eqb_spec (indexOf options (navigationValue (data (machine ctx))))
                (Z.of_nat (length options) - 1)).
    + destruct (autocompletePropRef ctx); [right; left; reflexivity |].
      right; right. apply In_range. lia.
    + right; right. apply In_range.
      rewrite Z.rem_mod_nonneg by lia. apply Z.mod_pos_bound, Hlen.
  - rewrite (ArrowUp_calls ctx options Hreg Hne).
    destruct (bool_decide _); [right; left; reflexivity |].
    destruct (Z.eqb_spec (indexOf options (navigationValue (data (machine ctx))))
                0).
    + destruct (autocompletePropRef ctx); [right; left; reflexivity |].
      right; right. apply In_range. lia.
    + destruct (Z.eqb_spec
                  (indexOf options (navigationValue (data (machine ctx))))
                  (-1)).
      * right; right. apply In_range. lia.
      * right; right. apply In_range.
        rewrite Z.rem_mod_nonneg by lia. apply Z.mod_pos_bound, Hlen.
Qed.

Lemma NAVIGATE_legal (s : State) : NAVIGATE ∈ legalActions s.
Proof. destruct s; decide_now. Qed.

Lemma transition_NAVIGATE (m : Machine) (v : JSVal) :
  combobox_transition m NAVIGATE v
  = Ok {| state := NAVIGATING;
          data := {| value := value (data m); navigationValue := v;
                     lastActionType := str NAVIGATE |} |}.
Proof. destruct m as [[] d]; reflexivity. Qed.

(** X5. An arrow key never throws. Either it makes no transition, or it
    leaves the machine Navigating with the value untouched and a
    navigationValue that is null or one of the values in the registry. *)
Theorem arrows_stay_in_registry (ctx : Context) (key : string) :
  key = "ArrowDown" \/ key = "ArrowUp" ->
  exists m',
    run (machine ctx) (handleKeyDown ctx key) = Ok m'
    /\ (m' = machine ctx
        \/ (state m' = NAVIGATING
            /\ value (data m') = value (data (machine ctx))
            /\ (navigationValue (data m') = null
                \/ exists options x,
                     optionsRef ctx = Some options /\ x ∈ options
                     /\ navigationValue (data m') = str x))).
Proof.
  intros Hk.
  destruct (arrow_transitions ctx key Hk)
    as [E | [E | (options & x & Hreg & Hx & E)]].
  - exists (machine ctx). split; [apply run_no_transition, E | auto].
  - rewrite (run_one_transition _ _ _ _ E), transition_NAVIGATE.
    eexists. split; [reflexivity |]. right. cbn. auto.
  - rewrite (run_one_transition _ _ _ _ E), transition_NAVIGATE.
    eexists. split; [reflexivity |]. right. cbn. eauto 10.
Qed.

Lemma arrows_stay_in_registry_witness :
  exists m',
    run (machine (navigating fruits (str "Cherry") true false))
        (handleKeyDown (navigating fruits (str "Cherry") true false)
                       "ArrowDown") = Ok m'
    /\ (m' = machine (navigating fruits (str "Cherry") true false)
        \/ (state m' = NAVIGATING
            /\ value (data m')
               = value (data (machine
                               (navigating fruits (str "Cherry") true false)))
            /\ (navigationValue (data m') = null
                \/ exists options x,
                     optionsRef (navigating fruits (str "Cherry") true false)
                     = Some options
                     /\ x ∈ options
                     /\ navigationValue (data m') = str x))).
Proof.
  apply (arrows_stay_in_registry
           (navigating fruits (str "Cherry") true false) "ArrowDown").
  left. reflexivity.
Defined.

(** Every handler makes at most one transition, with the payload its
    action type expects, and SelectWithKeyboard only under the guard of
    Enter. *)
Lemma handle_typed (ctx : Context) (e : UIEvent) :
  transitions (handle ctx e) = []
  \/ exists a : TypedAction,
       transitions (handle ctx e)
       = [(Action.type (dispatched a), Action.value (dispatched a))]
       /\ (a = SelectWithKeyboard -> Enter_guard ctx).
Proof.
  destruct e as [key | v | cv text | cv | f]; cbn [handle].
  - destruct (key_cases key) as [-> | [-> | [-> | [-> | (H1 & H2 & H3 & H4)]]]].
    + destruct (arrow_transitions ctx "ArrowDown" ltac:(auto))
        as [E | [E | (options & x & _ & _ & E)]]; [auto | right | right].
      * exists (Navigate None). split; [exact E | discriminate].
      * exists (Navigate (Some x)). split; [exact E | discriminate].
    + destruct (arrow_transitions ctx "ArrowUp" ltac:(auto))
        as [E | [E | (options & x & _ & _ & E)]]; [auto | right | right].
      * exists (Navigate None). split; [exact E | discriminate].
      * exists (Navigate (Some x)). split; [exact E | discriminate].
    + rewrite Escape_calls. destruct (negb _); [right | auto].
      exists Escape. split; [reflexivity | discriminate].
    + rewrite Enter_transitions.
      destruct (bool_decide _ && negb _) eqn:G; [right | auto].
      exists SelectWithKeyboard. split; [reflexivity |].
      intros _. apply Enter_guard_decides, G.
    + rewrite (handleKeyDown_other ctx key H1 H2 H3 H4). auto.
  - right. exists (SelectWithClick v).
    split; [apply handleClick_transitions | discriminate].
  - unfold handleChange, handleValueChange.
    destruct (negb _); [right | auto].
    destruct (String.eqb _ ""); [exists Clear | exists (Change text)];
      (split; [reflexivity | discriminate]).
  - unfold syncControlled, handleValueChange.
    destruct (_ && _); [| auto].
    destruct cv as [| | v]; [auto | auto | right].
    destruct (String.eqb _ ""); [exists Clear | exists (Change v)];
      (split; [reflexivity | discriminate]).
  - unfold handleBlur.
    destruct (popupRef f) as [[|] |]; [| | auto];
      (destruct (negb (active_is_input f)); [| auto]).
    + destruct (negb (bool_decide _)); [right | auto].
      exists Interact. split; [reflexivity | discriminate].
    + right. exists Blur. split; [reflexivity | discriminate].
Qed.

Lemma dispatched_eta (a : TypedAction) :
  Action.mk (Action.type (dispatched a)) (Action.value (dispatched a))
  = dispatched a.
Proof. destruct a as [| | [|] | | | | |]; reflexivity. Qed.

Lemma typed_step (captured : State) (m m' : Machine) (calls : list Call) :
  transitions calls = []
  \/ (exists a : TypedAction,
        transitions calls
        = [(Action.type (dispatched a), Action.value (dispatched a))]
        /\ (a = SelectWithKeyboard -> navigationValue (data m) <> null)) ->
  run_from captured m calls = Ok m' ->
  is_string (value (data m))
  /\ is_string_or_null (navigationValue (data m))
  /\ (navigationValue (data m) <> null -> state m = NAVIGATING) ->
  is_string (value (data m'))
  /\ is_string_or_null (navigationValue (data m'))
  /\ (navigationValue (data m') <> null -> state m' = NAVIGATING).
Proof.
  unfold is_string_or_null, is_string.
  intros [E | (a & E & G)] Hrun ([s Hs] & Hn & Hst);
    rewrite run_from_transitions, E in Hrun; cbn in Hrun.
  - injection Hrun as <-. eauto.
  - destruct (combobox_transition _ _ _) as [m1 |] eqn:Ht; [| discriminate].
    injection Hrun as ->.
    destruct (transition_inv _ _ _ _ Ht) as (_ & Hs' & Hr).
    rewrite dispatched_eta in Hr. cbn [data] in Hr. rewrite Hs'.
    destruct a as [| v | [v |] | | v | | |]; cbn in Hr;
      injection Hr as Hr; rewrite <- Hr; cbn;
      try solve
        [ split; [eauto |];
          split; [first [left; reflexivity | right; eauto] |];
          intros C; first [reflexivity | exfalso; apply C; reflexivity] ].
    specialize (G eq_refl).
    destruct Hn as [Hn | Hn]; [contradiction |].
    split; [exact Hn |].
    split; [left; reflexivity | intros C; exfalso; apply C; reflexivity].
Qed.

Lemma ui_reachable_typed (m : Machine) :
  ui_reachable m ->
  is_string (value (data m))
  /\ is_string_or_null (navigationValue (data m))
  /\ (navigationValue (data m) <> null -> state m = NAVIGATING).
Proof.
  induction 1 as [| m m' sel auto_ options e _ IH Hrun
                  | m m' captured sel auto_ options f _ IH Hrun].
  - split; [exists ""; reflexivity |].
    split; [left; reflexivity | intros H; contradiction H; reflexivity].
  - refine (typed_step (state m) m m' _ _ Hrun IH).
    destruct (handle_typed
                {| machine := m; onSelect := sel; optionsRef := options;
                   autocompletePropRef := auto_ |} e) as [E | (a & E & G)];
      [left; exact E | right].
    exists a. split; [exact E |]. intros Ha. exact (proj2 (G Ha)).
  - refine (typed_step captured m m' _ _ Hrun IH).
    destruct (handle_typed
                {| machine := {| state := captured; data := data m |};
                   onSelect := sel; optionsRef := options;
                   autocompletePropRef := auto_ |} (BlurCheck f))
      as [E | (a & E & G)]; [left; exact E | right].
    exists a. split; [exact E |]. intros Ha. exact (proj2 (G Ha)).
Qed.

Lemma selected_Banana_reachable : ui_reachable selected_Banana.
Proof.
  assert (step : forall m m' key,
             ui_reachable m ->
             run m (handle (rerender (mounted (Some fruits)) m) (KeyDown key))
             = Ok m' ->
             ui_reachable m').
  { intros m m' key Hm Hr. exact (ui_handled m m' _ _ _ _ Hm Hr). }
  pose (at_ := fun v : JSVal =>
            {| state := NAVIGATING;
               data := {| value := str ""; navigationValue := v;
                          lastActionType := str NAVIGATE |} |}).
  assert (H1 : ui_reachable (at_ null))
    by (apply (step _ _ "ArrowDown" ui_mounted); vm_compute; reflexivity).
  assert (H2 : ui_reachable (at_ (str "Apple")))
    by (apply (step _ _ "ArrowDown" H1); vm_compute; reflexivity).
  assert (H3 : ui_reachable (at_ (str "Banana")))
    by (apply (step _ _ "ArrowDown" H2); vm_compute; reflexivity).
  apply (step _ _ "Enter" H3). vm_compute. reflexivity.
Qed.

(** X6. Whatever keys, clicks, change events, renders and blur checks a
    combobox has handled since it mounted, with whatever props and
    registry at each of them, the value of its data is a string (never
    null or undefined) and its navigationValue is a string or null. *)
Theorem ui_value_is_string (m : Machine) :
  ui_reachable m ->
  is_string (value (data m))
  /\ value (data m) <> null /\ value (data m) <> undefined
  /\ is_string_or_null (navigationValue (data m)).
Proof.
  intros H. destruct (ui_reachable_typed m H) as ([s Hs] & Hn & _).
  split; [exists s; exact Hs |].
  rewrite Hs. split; [discriminate | split; [discriminate | exact Hn]].
Qed.

Lemma ui_value_is_string_witness :
  is_string (value (data selected_Banana))
  /\ value (data selected_Banana) <> null
  /\ value (data selected_Banana) <> undefined
  /\ is_string_or_null (navigationValue (data selected_Banana)).
Proof.
  apply (ui_value_is_string selected_Banana). exact selected_Banana_reachable.
Defined.

(** X7. In a combobox driven by its handlers a navigationValue is there
    only in state Navigating: in every other state it is null, the input
    has no active descendant and no option is marked selected. *)
Theorem navigation_only_while_navigating (ctx : Context) :
  ui_reachable (machine ctx) ->
  state (machine ctx) <> NAVIGATING ->
  navigationValue (data (machine ctx)) = null
  /\ aria_activedescendant ctx = None
  /\ forall v, isActive ctx v = false.
Proof.
  intros H Hs. destruct (ui_reachable_typed _ H) as (_ & _ & Hn).
  assert (E : navigationValue (data (machine ctx)) = null).
  { destruct (decide (navigationValue (data (machine ctx)) = null)) as [E | E];
      [exact E | contradiction (Hs (Hn E))]. }
  unfold aria_activedescendant, isActive. rewrite E.
  split; [reflexivity | split; [reflexivity |]].
  intros v. reflexivity.
Qed.

Lemma navigation_only_while_navigating_witness :
  navigationValue (data (machine (rerender (mounted (Some fruits))
                                           selected_Banana))) = null
  /\ aria_activedescendant (rerender (mounted (Some fruits)) selected_Banana)
     = None
  /\ forall v, isActive (rerender (mounted (Some fruits)) selected_Banana) v
               = false.
Proof.
  apply (navigation_only_while_navigating
           (rerender (mounted (Some fruits)) selected_Banana)).
  - exact selected_Banana_reachable.
  - discriminate.
Defined.

(** X8. No key makes the keyboard handler throw, in any state and with any
    registry: the transitions it asks for are legal where it asks for
    them. *)
Theorem keys_never_throw (ctx : Context) (key : string) :
  succeeds (run (machine ctx) (handleKeyDown ctx key)).
Proof.
  assert (none : forall calls,
             transitions calls = [] -> succeeds (run (machine ctx) calls)).
  { intros calls E. exists (machine ctx). apply run_no_transition, E. }
  assert (nav : forall calls v,
             transitions calls = [(NAVIGATE, v)] ->
             succeeds (run (machine ctx) calls)).
  { intros calls v E. rewrite (run_one_transition _ _ _ _ E).
    apply transition_legal, NAVIGATE_legal. }
  destruct (key_cases key) as [-> | [-> | [-> | [-> | (H1 & H2 & H3 & H4)]]]].
  - destruct (arrow_transitions ctx "ArrowDown" ltac:(auto))
      as [E | [E | (options & x & _ & _ & E)]]; eauto.
  - destruct (arrow_transitions ctx "ArrowUp" ltac:(auto))
      as [E | [E | (options & x & _ & _ & E)]]; eauto.
  - rewrite Escape_calls.
    destruct (state (machine ctx)) eqn:Es; cbn;
      [apply none; reflexivity | | |];
      rewrite (run_one_transition _ [Transition ESCAPE undefined]
                 ESCAPE undefined eq_refl);
      apply transition_legal; rewrite Es; decide_now.
  - pose proof (Enter_transitions ctx) as E.
    destruct (bool_decide _ && negb _) eqn:G; [| apply none, E].
    apply Enter_guard_decides in G. destruct G as [Es _].
    rewrite (run_one_transition _ _ _ _ E).
    apply transition_legal. rewrite Es. decide_now.
  - rewrite (handleKeyDown_other ctx key H1 H2 H3 H4).
    apply none. reflexivity.
Qed.

(** X9. Escape in any state but Idle closes the popup: the machine is
    Idle, the value is as it was, the navigationValue is null and focus
    goes back to the input. In Idle the key does nothing. *)
Theorem Escape_closes (ctx : Context) :
  (state (machine ctx) <> IDLE ->
   run (machine ctx) (handleKeyDown ctx "Escape")
   = Ok {| state := IDLE;
           data := {| value := value (data (machine ctx));
                      navigationValue := null;
                      lastActionType := str ESCAPE |} |}
   /\ useFocusManagement (str ESCAPE) = true)
  /\ (state (machine ctx) = IDLE -> handleKeyDown ctx "Escape" = []).
Proof.
  rewrite Escape_calls. split.
  - intros Hs. split; [| reflexivity].
    rewrite bool_decide_eq_false_2 by exact Hs. cbn [negb].
    rewrite (run_one_transition _ [Transition ESCAPE undefined]
               ESCAPE undefined eq_refl).
    destruct (machine ctx) as [[] d]; cbn in *;
      [contradiction | reflexivity | reflexivity | reflexivity].
  - intros ->. reflexivity.
Qed.

Lemma Escape_closes_witness :
  run (machine (navigating fruits (str "Banana") true true))
      (handleKeyDown (navigating fruits (str "Banana") true true) "Escape")
  = Ok {| state := IDLE;
          data := {| value := str ""; navigationValue := null;
                     lastActionType := str ESCAPE |} |}
  /\ useFocusManagement (str ESCAPE) = true.
Proof.
  apply (proj1 (Escape_closes (navigating fruits (str "Banana") true true))).
  discriminate.
Defined.

(** X10. A click on an option calls [onSelect], when there is one, with
    the option's value, and then asks for SelectWithClick: from Suggesting
    and from Navigating the machine becomes Idle with the option's value as
    value and no navigationValue; from Idle and from Interacting the
    transition is not in the table and throws. *)
Theorem click_selects (ctx : Context) (v : string) :
  selections (handleClick ctx v) = (if onSelect ctx then [str v] else [])
  /\ (state (machine ctx) = SUGGESTING \/ state (machine ctx) = NAVIGATING ->
      run (machine ctx) (handleClick ctx v)
      = Ok {| state := IDLE;
              data := {| value := str v; navigationValue := null;
                         lastActionType := str SELECT_WITH_CLICK |} |})
  /\ (state (machine ctx) = IDLE \/ state (machine ctx) = INTERACTING ->
      run (machine ctx) (handleClick ctx v)
      = Throw (UnknownActionForState SELECT_WITH_CLICK (state (machine ctx)))).
Proof.
  split; [unfold handleClick, call_onSelect;
          destruct (onSelect ctx); reflexivity |].
  rewrite (run_one_transition _ _ _ _ (handleClick_transitions ctx v)).
  split; intros [E | E]; destruct (machine ctx) as [s d]; cbn in E; subst s;
    reflexivity.
Qed.

Lemma click_selects_witness :
  run {| state := INTERACTING; data := defaultData |}
      (handleClick (rerender (mounted (Some fruits))
                      {| state := INTERACTING; data := defaultData |})
                   "Apple")
  = Throw (UnknownActionForState SELECT_WITH_CLICK INTERACTING).
Proof.
  apply (proj2 (proj2 (click_selects
                         (rerender (mounted (Some fruits))
                            {| state := INTERACTING; data := defaultData |})
                         "Apple"))).
  right. reflexivity.
Defined.

(** X11. The deferred check of a blur. With focus on the input, or with no
    popup, it does nothing. With focus outside the input and the popup it
    leaves the machine Idle with the value kept and the navigationValue
    null, from every state. With focus inside the popup it leads from
    Suggesting and Navigating to Interacting, does nothing in Interacting,
    and throws in Idle, where Interact is not in the table. *)
Theorem blur_check (ctx : Context) (f : FocusCheck) :
  (active_is_input f = true \/ popupRef f = None -> handleBlur ctx f = [])
  /\ (active_is_input f = false -> popupRef f = Some false ->
      run (machine ctx) (handleBlur ctx f)
      = Ok {| state := IDLE;
              data := {| value := value (data (machine ctx));
                         navigationValue := null;
                         lastActionType := str BLUR |} |})
  /\ (active_is_input f = false -> popupRef f = Some true ->
      match state (machine ctx) with
      | IDLE =>
          run (machine ctx) (handleBlur ctx f)
          = Throw (UnknownActionForState INTERACT IDLE)
      | INTERACTING => handleBlur ctx f = []
      | _ =>
          run (machine ctx) (handleBlur ctx f)
          = Ok {| state := INTERACTING;
                  data := {| value := value (data (machine ctx));
                             navigationValue := null;
                             lastActionType := str INTERACT |} |}
      end).
Proof.
  unfold handleBlur. split; [| split].
  - intros [-> | ->]; [destruct (popupRef f) as [[|] |] |]; reflexivity.
  - intros -> ->. cbn [negb].
    rewrite (run_one_transition _ [Transition BLUR undefined]
               BLUR undefined eq_refl).
    destruct (machine ctx) as [[] d]; reflexivity.
  - intros -> ->. cbn [negb].
    destruct (machine ctx) as [[] d]; reflexivity.
Qed.

Lemma blur_check_witness :
  run (machine (navigating fruits (str "Banana") true true))
      (handleBlur (navigating fruits (str "Banana") true true)
                  {| active_is_input := false; popupRef := Some false |})
  = Ok {| state := IDLE;
          data := {| value := str ""; navigationValue := null;
                     lastActionType := str BLUR |} |}.
Proof.
  apply (proj1 (proj2 (blur_check
                         (navigating fruits (str "Banana") true true)
                         {| active_is_input := false;
                            popupRef := Some false |})));
    reflexivity.
Defined.

(** ** Typing *)

Lemma trimEnd_empty (s : string) :
  trimEnd s = "" -> all_whitespace s = true.
Proof.
  induction s as [| c s IH]; cbn; [reflexivity |].
  destruct (isWhiteSpace c); cbn; [| discriminate].
  destruct (String.eqb_spec (trimEnd s) ""); [auto | discriminate].
Qed.

Lemma trimStart_head (s : string) :
  match trimStart s with
  | EmptyString => all_whitespace s = true
  | String c _ => isWhiteSpace c = false /\ all_whitespace s = false
  end.
Proof.
  induction s as [| c s IH]; cbn; [reflexivity |].
  destruct (isWhiteSpace c) eqn:E; cbn; [exact IH | auto].
Qed.

Lemma trim_empty (s : string) : trim s = "" <-> all_whitespace s = true.
Proof.
  unfold trim. pose proof (trimStart_head s) as H.
  destruct (trimStart s) as [| c t] eqn:E.
  - split; [intros _; exact H | reflexivity].
  - destruct H as [Hc Hs]. rewrite Hs. split; [| discriminate].
    intros F. apply trimEnd_empty in F. cbn in F. rewrite Hc in F.
    discriminate.
Qed.

Lemma handleValueChange_cases (text : string) :
  handleValueChange text
  = if all_whitespace text then [Transition CLEAR undefined]
    else [Transition CHANGE (str text)].
Proof.
  unfold handleValueChange. pose proof (trim_empty text) as H.
  destruct (String.eqb_spec (trim text) "") as [E | E].
  - rewrite (proj1 H E). reflexivity.
  - destruct (all_whitespace text); [| reflexivity].
    contradiction E. apply H. reflexivity.
Qed.

(** X12. A change event of the input. When the input is controlled it asks
    for nothing. Otherwise a text with a character that is not white space
    leads from every state to Suggesting, with the text, untrimmed, as
    value; a text of white space only, the empty one included, leads to
    Idle with the empty value from Idle, Suggesting and Navigating, and
    throws in Interacting, where Clear is not in the table. *)
Theorem typing (ctx : Context) (controlledValue : JSVal) (text : string) :
  (isControlled controlledValue = true ->
   handleChange controlledValue text = [])
  /\ (isControlled controlledValue = false ->
      (all_whitespace text = false ->
       run (machine ctx) (handleChange controlledValue text)
       = Ok {| state := SUGGESTING;
               data := {| value := str text; navigationValue := null;
                          lastActionType := str CHANGE |} |})
      /\ (all_whitespace text = true ->
          state (machine ctx) <> INTERACTING ->
          run (machine ctx) (handleChange controlledValue text)
          = Ok {| state := IDLE;
                  data := {| value := str ""; navigationValue := null;
                             lastActionType := str CLEAR |} |})
      /\ (all_whitespace text = true ->
          state (machine ctx) = INTERACTING ->
          run (machine ctx) (handleChange controlledValue text)
          = Throw (UnknownActionForState CLEAR INTERACTING))).
Proof.
  unfold handleChange. split; [intros ->; reflexivity |].
  intros ->. cbn [negb]. rewrite handleValueChange_cases.
  split; [| split].
  - intros ->.
    rewrite (run_one_transition _ [Transition CHANGE (str text)]
               CHANGE (str text) eq_refl).
    apply transition_CHANGE.
  - intros -> Hs.
    rewrite (run_one_transition _ [Transition CLEAR undefined]
               CLEAR undefined eq_refl).
    apply transition_CLEAR, Hs.
  - intros -> Hs.
    rewrite (run_one_transition _ [Transition CLEAR undefined]
               CLEAR undefined eq_refl).
    destruct (machine ctx) as [s d]. cbn in Hs. subst s. reflexivity.
Qed.

Lemma typing_witness :
  run (machine (mounted None)) (handleChange undefined " ap ")
  = Ok {| state := SUGGESTING;
          data := {| value := str " ap "; navigationValue := null;
                     lastActionType := str CHANGE |} |}.
Proof.
  apply (proj1 (proj2 (typing (mounted None) undefined " ap ") eq_refl)).
  reflexivity.
Defined.

Lemma js_or_string (a b : JSVal) : is_string b -> is_string (js_or a b).
Proof.
  intros Hb. unfold js_or.
  destruct a as [| | s]; cbn; try exact Hb.
  destruct (negb _); [exists s; reflexivity | exact Hb].
Qed.

(** X13. The text the input renders is a string, never null or undefined,
    in every combobox driven by its handlers, whatever the autocomplete
    and value props are. *)
Theorem inputValue_is_string (ctx : Context) (autocomplete : bool)
  (controlledValue : JSVal) :
  ui_reachable (machine ctx) ->
  is_string (inputValue ctx autocomplete controlledValue).
Proof.
  intros H. destruct (ui_reachable_typed _ H) as (Hv & _ & _).
  unfold inputValue.
  destruct (autocomplete && _); repeat apply js_or_string; exact Hv.
Qed.

Lemma inputValue_is_string_witness :
  is_string (inputValue (rerender (mounted (Some fruits)) selected_Banana)
                        true null).
Proof.
  apply (inputValue_is_string
           (rerender (mounted (Some fruits)) selected_Banana) true null).
  exact selected_Banana_reachable.
Defined.

(** ** The ids of the options *)

Lemma charCodes_app (a b : string) :
  charCodes (String.append a b) = (charCodes a ++ charCodes b)%list.
Proof.
  unfold charCodes. induction a as [| c a IH]; [reflexivity |].
  change (String.append (String c a) b) with (String c (String.append a b)).
  cbn [list_ascii_of_string map]. rewrite IH. reflexivity.
Qed.

Lemma makeHash_fold (s : string) :
  makeHash s = fold_left makeHash_step (charCodes s) 0%Z.
Proof. destruct s; reflexivity. Qed.

Lemma makeHash_app (a b : string) :
  makeHash (String.append a b)
  = fold_left makeHash_step (charCodes b) (makeHash a).
Proof.
  rewrite !makeHash_fold, charCodes_app. apply fold_left_app.
Qed.

Lemma step_31_congruent (h1 h2 c1 c2 : Z) :
  ((31 * h1 + c1) mod 2 ^ 32 = (31 * h2 + c2) mod 2 ^ 32)%Z ->
  makeHash_step h1 c1 = makeHash_step h2 c2.
Proof.
  intros H. rewrite !makeHash_step_31. apply toInt32_congruent, H.
Qed.

(** X14. The hash of the empty string is 0, and the hash of a string
    followed by one more character is 31 times the hash of the string plus
    the code of the character, wrapped to 32 bits. *)
Theorem makeHash_snoc (s : string) (c : ascii) :
  makeHash "" = 0%Z
  /\ makeHash (String.append s (String c ""))
     = toInt32 (31 * makeHash s + Z.of_nat (nat_of_ascii c)).
Proof.
  split; [reflexivity |].
  rewrite makeHash_app. cbn. apply makeHash_step_31.
Qed.

(** X15. The id of an option is a signed 32-bit integer, whatever the
    length of its value. *)
Theorem option_id_int32 (v : string) :
  (- 2 ^ 31 <= option_id v < 2 ^ 31)%Z.
Proof. apply makeHash_int32. Qed.

(** X16. Ids are not unique to a value: two values that differ only in
    having Aa where the other has BB are different and get the same id. *)
Theorem option_id_collides (before after : string) :
  let v1 := String.append before (String.append "Aa" after) in
  let v2 := String.append before (String.append "BB" after) in
  v1 <> v2 /\ option_id v1 = option_id v2.
Proof.
  cbv zeta. split.
  - induction before as [| c before IH]; [discriminate |].
    change (String.append (String c before) ?x)
      with (String c (String.append before x)).
    intros [= H]. exact (IH H).
  - unfold option_id.
    rewrite !makeHash_app, !charCodes_app, !fold_left_app. f_equal.
    change (charCodes "Aa") with [65; 97]%Z.
    change (charCodes "BB") with [66; 66]%Z.
    cbn [fold_left].
    apply step_31_congruent.
    rewrite !makeHash_step_31.
    rewrite Z.add_mod, Z.mul_mod, toInt32_mod by lia.
    rewrite <- Z.mul_mod, <- Z.add_mod by lia.
    symmetry.
    rewrite Z.add_mod, Z.mul_mod, toInt32_mod by lia.
    rewrite <- Z.mul_mod, <- Z.add_mod by lia.
    f_equal. cbn. lia.
Qed.

(** X17. At most one value is marked selected among the options, and when
    that value is not the empty string the input's active descendant is
    the id of the options that carry it. *)
Theorem active_option_is_descendant (ctx : Context) (v : string) :
  isActive ctx v = true ->
  (forall v', isActive ctx v' = true -> v' = v)
  /\ (v <> "" -> aria_activedescendant ctx = Some (option_id v)).
Proof.
  unfold isActive, strict_eq. rewrite bool_decide_eq_true. intros E.
  split.
  - intros v'. rewrite bool_decide_eq_true, E. intros [= ->]. reflexivity.
  - intros Hv. unfold aria_activedescendant. rewrite E. cbn.
    destruct (String.eqb_spec v ""); [contradiction | reflexivity].
Qed.

Lemma active_option_is_descendant_witness :
  (forall v', isActive (navigating fruits (str "Banana") true true) v' = true ->
              v' = "Banana")
  /\ ("Banana" <> "" ->
      aria_activedescendant (navigating fruits (str "Banana") true true)
      = Some (option_id "Banana")).
Proof.
  apply (active_option_is_descendant
           (navigating fruits (str "Banana") true true) "Banana").
  reflexivity.
Defined.

(** ** Moving through the registry *)

Lemma position_NoDup (options : list string) (i : nat) (x : string) :
  NoDup options -> options !! i = Some x ->
  position options (str x) (Z.of_nat i).
Proof.
  intros Hd Hi. right. exists x.
  rewrite Nat2Z.id.
  split; [reflexivity | split; [lia | split; [exact Hi |]]].
  intros j Hj Hx. pose proof (NoDup_lookup _ _ _ _ Hd Hi Hx). lia.
Qed.

(** X18. In a registry without duplicates, ArrowDown from an option that
    is not the last moves to the next option, and ArrowUp then moves back
    to the option it came from, whether autocomplete is on or off. *)
Theorem down_then_up (ctx : Context) (options : list string) (i : nat)
  (x : string) :
  optionsRef ctx = Some options -> NoDup options ->
  state (machine ctx) <> IDLE ->
  navigationValue (data (machine ctx)) = str x ->
  options !! i = Some x -> (S i < length options)%nat ->
  exists m1 m2 y,
    run (machine ctx) (handleKeyDown ctx "ArrowDown") = Ok m1
    /\ options !! S i = Some y
    /\ navigationValue (data m1) = str y
    /\ run m1 (handleKeyDown (rerender ctx m1) "ArrowUp") = Ok m2
    /\ navigationValue (data m2) = str x
    /\ state m2 = NAVIGATING.
Proof.
  intros Hreg Hd Hs Hn Hi Hlt.
  assert (Hne : options <> []) by (destruct options; [cbn in Hlt; lia | discriminate]).
  destruct (lookup_lt_is_Some_2 options (S i) Hlt) as [y Hy].
  pose proof (position_NoDup _ _ _ Hd Hi) as Px. rewrite <- Hn in Px.
  pose proof (ArrowDown_next ctx options Hreg Hne _ Hs Px ltac:(lia)) as E1.
  rewrite Z.mod_small in E1 by lia.
  destruct (at_index_in_range options (Z.of_nat i + 1) ltac:(lia))
    as (y' & Hy' & Ey).
  replace (Z.to_nat (Z.of_nat i + 1)) with (S i) in Hy' by lia.
  rewrite Hy in Hy'. injection Hy' as <-. rewrite Ey in E1.
  rewrite (run_one_transition _ _ _ _ E1), transition_NAVIGATE.
  eexists _, _, y. split; [reflexivity |].
  split; [exact Hy | split; [reflexivity |]].
  set (m1 := {| state := NAVIGATING; data := _ |}).
  pose proof (position_NoDup _ _ _ Hd Hy) as Py.
  assert (E2 : transitions (handleKeyDown (rerender ctx m1) "ArrowUp")
               = [(NAVIGATE, str x)]).
  { rewrite (ArrowUp_previous (rerender ctx m1) options Hreg Hne
               (Z.of_nat (S i)) ltac:(discriminate) Py ltac:(lia) ltac:(lia)).
    replace (Z.of_nat (S i) - 1 + Z.of_nat (length options))%Z
      with (Z.of_nat i + 1 * Z.of_nat (length options))%Z by lia.
    rewrite Z.mod_add, Z.mod_small by lia.
    destruct (at_index_in_range options (Z.of_nat i) ltac:(lia))
      as (x' & Hx' & ->).
    rewrite Nat2Z.id, Hi in Hx'. injection Hx' as <-. reflexivity. }
  rewrite (run_one_transition _ _ _ _ E2), transition_NAVIGATE.
  split; [reflexivity | split; reflexivity].
Qed.

Lemma down_then_up_witness :
  exists m1 m2 y,
    run (machine (navigating fruits (str "Apple") true true))
        (handleKeyDown (navigating fruits (str "Apple") true true) "ArrowDown")
    = Ok m1
    /\ fruits !! 1%nat = Some y
    /\ navigationValue (data m1) = str y
    /\ run m1 (handleKeyDown
                 (rerender (navigating fruits (str "Apple") true true) m1)
                 "ArrowUp") = Ok m2
    /\ navigationValue (data m2) = str "Apple"
    /\ state m2 = NAVIGATING.
Proof.
  apply (down_then_up (navigating fruits (str "Apple") true true) fruits
           0%nat "Apple").
  - reflexivity.
  - decide_now.
  - discriminate.
  - reflexivity.
  - reflexivity.
  - cbn. lia.
Defined.

(** ** The reducer, once more *)

(** X19. Dispatching an action a second time changes nothing, for every
    action type but SelectWithKeyboard: that one, dispatched again, sets
    the value to null, since the first has cleared the navigationValue it
    copies. *)
Theorem reducer_twice (d d1 : Data) (a : Action.t) :
  reducer d a = Ok d1 ->
  (Action.type a <> SELECT_WITH_KEYBOARD -> reducer d1 a = Ok d1)
  /\ (Action.type a = SELECT_WITH_KEYBOARD ->
      exists d2, reducer d1 a = Ok d2 /\ value d2 = null).
Proof.
  destruct (decide (Action.type a ∈ actionTypes)) as [H | H];
    [| rewrite (reducer_undeclared d a H); discriminate].
  destruct a as [type v]. cbn in *. unfold actionTypes in H.
  rewrite !elem_of_cons, elem_of_nil in H.
  repeat destruct H as [-> | H]; try contradiction;
    intros [= <-]; (split; [intros N | intros E]);
    try reflexivity; try discriminate E; try contradiction.
  eexists. split; reflexivity.
Qed.

Lemma reducer_twice_witness :
  exists d2,
    reducer {| value := str "Banana"; navigationValue := null;
               lastActionType := str SELECT_WITH_KEYBOARD |}
            (Action.mk SELECT_WITH_KEYBOARD undefined) = Ok d2
    /\ value d2 = null.
Proof.
  apply (proj2 (reducer_twice
                  {| value := str ""; navigationValue := str "Banana";
                     lastActionType := str NAVIGATE |}
                  _ (Action.mk SELECT_WITH_KEYBOARD undefined) eq_refl)).
  reflexivity.
Defined.

(** ** Default actions *)

(** X20. The keyboard handler prevents the default action of a key exactly
    for ArrowDown and ArrowUp, whatever the state and even with no options
    to move through, and for Enter when the state is Navigating with a
    navigationValue that is not null; Escape and every other key keep
    their default action. *)
Theorem default_prevented (ctx : Context) (key : string) :
  PreventDefault ∈ handleKeyDown ctx key
  <-> key = "ArrowDown" \/ key = "ArrowUp"
      \/ (key = "Enter" /\ Enter_guard ctx).
Proof.
  destruct (key_cases key) as [-> | [-> | [-> | [-> | (H1 & H2 & H3 & H4)]]]].
  - split; [auto |]. intros _.
    assert (E : exists rest,
               handleKeyDown ctx "ArrowDown" = PreventDefault :: rest)
      by (eexists; reflexivity).
    destruct E as [rest ->]. apply list_elem_of_here.
  - split; [auto |]. intros _.
    assert (E : exists rest,
               handleKeyDown ctx "ArrowUp" = PreventDefault :: rest)
      by (eexists; reflexivity).
    destruct E as [rest ->]. apply list_elem_of_here.
  - rewrite Escape_calls. split.
    + destruct (negb _); rewrite ?elem_of_cons, elem_of_nil;
        intros H; [destruct H as [H | H]; [discriminate | contradiction]
                  | contradiction].
    + intros [H | [H | [H _]]]; discriminate.
  - rewrite Enter_calls. pose proof (Enter_guard_decides ctx) as G.
    destruct (bool_decide _ && negb _).
    + split; [intros _; right; right; split; [reflexivity | apply G; reflexivity]
             | intros _; apply list_elem_of_here].
    + split; [rewrite elem_of_nil; contradiction |].
      intros [H | [H | [_ H]]]; try discriminate.
      apply G in H. discriminate.
  - rewrite (handleKeyDown_other ctx key H1 H2 H3 H4), elem_of_nil.
    split; [contradiction |].
    intros [H | [H | [H _]]]; contradiction.
Qed.

(** ** Selecting the text of the input *)

Lemma selectOnClick_bound (selectOnClick ref : bool)
  (events : list InputEvent) :
  (count_occ Bool.bool_dec (selectOnClick_run selectOnClick ref events) true
   <= (if ref then 1 else 0)
      + (if selectOnClick
         then length (List.filter
                        (fun e => match e with FocusEvent => true
                                          | ClickEvent => false end) events)
         else 0))%nat.
Proof.
  revert ref. induction events as [| e events IH]; intros ref; cbn;
    [destruct ref, selectOnClick; lia |].
  destruct e; cbn.
  - specialize (IH (if selectOnClick then true else ref)).
    destruct selectOnClick, ref; cbn in *; lia.
  - destruct ref; cbn.
    + specialize (IH false). destruct selectOnClick; cbn in *; lia.
    + specialize (IH false). destruct selectOnClick; cbn in *; lia.
Qed.

(** X21. Over any sequence of focus and click events on the input, the
    text is selected at most once per focus event, and never when the
    selectOnClick prop is off; a click that follows a click selects
    nothing. *)
Theorem selectOnClick_once_per_focus (selectOnClick : bool)
  (events : list InputEvent) :
  (count_occ Bool.bool_dec (selectOnClick_run selectOnClick false events) true
   <= if selectOnClick
      then length (List.filter
                     (fun e => match e with FocusEvent => true
                                       | ClickEvent => false end) events)
      else 0)%nat
  /\ (forall ref,
        selectOnClick_run selectOnClick
          (fst (selectOnClick_step selectOnClick ref ClickEvent)) [ClickEvent]
        = [false]).
Proof.
  split; [apply (selectOnClick_bound selectOnClick false events) |].
  intros [|]; reflexivity.
Qed.

(** * Properties of packages/utils *)

(** ** wrapEvent *)

(** X22. The handler wrapEvent builds calls the user's handler first,
    when there is one, and then the library's handler only if the event
    is not default-prevented by then: with the event prevented the result
    is the user's alone, otherwise the library's handler runs on the event
    as the user's left it and its calls follow the user's; with no user
    handler an event that arrives prevented runs nothing. Wrapping is
    therefore associative: a user handler wrapped around [b], the whole
    wrapped around [c], behaves on every event as the user handler wrapped
    around the wrapping of [b] and [c]. *)
Theorem wrapEvent_assoc (Eff : Type) (a : option (Handler Eff))
  (b c : Handler Eff) (event : Event) :
  (forall (theirs ours : Handler Eff) e1 effs1,
     theirs event = (e1, effs1) -> defaultPrevented e1 = true ->
     wrapEvent (Some theirs) ours event = (e1, effs1))
  /\ (forall (theirs ours : Handler Eff) e1 effs1 e2 effs2,
        theirs event = (e1, effs1) -> defaultPrevented e1 = false ->
        ours e1 = (e2, effs2) ->
        wrapEvent (Some theirs) ours event = (e2, (effs1 ++ effs2)%list))
  /\ (forall ours : Handler Eff,
        wrapEvent None ours event
        = if defaultPrevented event then (event, []) else ours event)
  /\ wrapEvent (Some (wrapEvent a b)) c event
     = wrapEvent a (wrapEvent (Some b) c) event.
Proof.
  unfold wrapEvent. split; [| split; [| split]].
  - intros theirs ours e1 effs1 -> ->. reflexivity.
  - intros theirs ours e1 effs1 e2 effs2 -> -> ->. reflexivity.
  - intros ours. destruct (defaultPrevented event); [reflexivity |].
    cbn [negb]. destruct (ours event) as [e effs]. reflexivity.
  - destruct (match a with Some h => h event | None => (event, []) end)
      as [e1 effs1].
    destruct (defaultPrevented e1) eqn:P1; cbn [negb].
    + rewrite P1. reflexivity.
    + destruct (b e1) as [e2 effs2].
      destruct (defaultPrevented e2) eqn:P2; cbn [negb]; [reflexivity |].
      destruct (c e2) as [e3 effs3]. rewrite app_assoc. reflexivity.
Qed.

(** The theorem at a user handler that prevents the default action, and at
    one that does not. *)
Lemma wrapEvent_assoc_witness :
  wrapEvent
    (Some (fun _ : Event => ({| defaultPrevented := true |}, [1%nat])))
    (fun e => (e, [2%nat])) {| defaultPrevented := false |}
  = ({| defaultPrevented := true |}, [1%nat])
  /\ wrapEvent
       (Some (fun e : Event => (e, [1%nat])))
       (fun _ => ({| defaultPrevented := true |}, [2%nat]))
       {| defaultPrevented := false |}
     = ({| defaultPrevented := true |}, [1%nat; 2%nat]).
Proof.
  split.
  - apply (proj1 (wrapEvent_assoc nat None (fun e => (e, []))
                    (fun e => (e, [])) {| defaultPrevented := false |}));
      reflexivity.
  - exact (proj1 (proj2 (wrapEvent_assoc nat None (fun e => (e, []))
                           (fun e => (e, []))
                           {| defaultPrevented := false |}))
             (fun e => (e, [1%nat]))
             (fun _ => ({| defaultPrevented := true |}, [2%nat]))
             {| defaultPrevented := false |} [1%nat]
             {| defaultPrevented := true |} [2%nat]
             eq_refl eq_refl eq_refl).
Defined.

(** ** makeId *)

Lemma append_assoc (a b c : string) :
  String.append (String.append a b) c = String.append a (String.append b c).
Proof.
  induction a as [| x a IH]; [reflexivity |].
  change (String x (String.append (String.append a b) c)
          = String x (String.append a (String.append b c))).
  rewrite IH. reflexivity.
Qed.

Lemma concat_app (sep : string) (l1 l2 : list string) :
  l1 <> [] -> l2 <> [] ->
  String.concat sep (l1 ++ l2)
  = String.append (String.concat sep l1)
      (String.append sep (String.concat sep l2)).
Proof.
  intros H1 H2. induction l1 as [| x l1 IH]; [contradiction |].
  destruct l1 as [| x' l1].
  - destruct l2; [contradiction | reflexivity].
  - change (String.concat sep ((x :: x' :: l1) ++ l2))
      with (String.append x
              (String.append sep (String.concat sep ((x' :: l1) ++ l2)))).
    rewrite IH by discriminate.
    change (String.concat sep (x :: x' :: l1))
      with (String.append x
              (String.append sep (String.concat sep (x' :: l1)))).
    rewrite !append_assoc. reflexivity.
Qed.

Lemma filter_not_nullish_nonempty (args : list JSVal) :
  Exists (fun v => not_nullish v = true) args ->
  map join_element (List.filter not_nullish args) <> [].
Proof.
  induction 1 as [v args Hv | v args _ IH]; cbn.
  - rewrite Hv. discriminate.
  - destruct (not_nullish v); [discriminate | exact IH].
Qed.

(** X23. makeId skips the arguments that are null or undefined; with none
    left it gives the empty string. Ids nest: when two argument lists each
    hold an argument that is not null or undefined, the id made of their
    two ids is the id of the arguments taken together. *)
Theorem makeId_nests (xs ys : list JSVal) :
  (forall v, not_nullish v = false ->
     makeId (xs ++ v :: ys) = makeId (xs ++ ys))
  /\ (Forall (fun v => not_nullish v = false) xs -> makeId xs = "")
  /\ (Exists (fun v => not_nullish v = true) xs ->
      Exists (fun v => not_nullish v = true) ys ->
      makeId [str (makeId xs); str (makeId ys)] = makeId (xs ++ ys)).
Proof.
  unfold makeId. split; [| split].
  - intros v Hv. rewrite !List.filter_app. cbn. rewrite Hv. reflexivity.
  - induction 1 as [| v xs Hv _ IH]; [reflexivity |].
    cbn. rewrite Hv. exact IH.
  - intros Hx Hy. rewrite List.filter_app, map_app.
    rewrite concat_app by (apply filter_not_nullish_nonempty; assumption).
    reflexivity.
Qed.

Lemma makeId_nests_witness :
  makeId [str (makeId [str "menu"; null; str "3"]);
          str (makeId [undefined; str "item"])]
  = makeId ([str "menu"; null; str "3"] ++ [undefined; str "item"]).
Proof.
  apply (proj2 (proj2 (makeId_nests [str "menu"; null; str "3"]
                         [undefined; str "item"]))).
  - apply Exists_cons_hd. reflexivity.
  - apply Exists_cons_tl, Exists_cons_hd. reflexivity.
Defined.

(** ** useControlledSwitchWarning *)

Lemma switch_effect_cases (DEV isControlled wasControlled : bool) :
  switch_effect DEV isControlled wasControlled
  = if DEV && wasControlled && negb isControlled
    then [UncontrolledToControlled; ControlledToUncontrolled]
    else [].
Proof. destruct DEV, isControlled, wasControlled; reflexivity. Qed.

Lemma switch_rerenders_uncontrolled (DEV previous : bool) (props : list JSVal) :
  Forall (fun printed => printed = [])
         (switch_rerenders DEV false previous props).
Proof.
  revert previous. induction props as [| p props IH]; intros previous; cbn;
    constructor; [| apply IH].
  destruct (Bool.eqb _ previous); [reflexivity |].
  rewrite switch_effect_cases, andb_false_r. reflexivity.
Qed.

Lemma switch_rerenders_both (DEV wasControlled previous : bool)
  (props : list JSVal) :
  Forall (fun printed =>
            printed = []
            \/ printed = [UncontrolledToControlled; ControlledToUncontrolled])
         (switch_rerenders DEV wasControlled previous props).
Proof.
  revert previous. induction props as [| p props IH]; intros previous; cbn;
    constructor; [| apply IH].
  destruct (Bool.eqb _ previous); [auto |].
  rewrite switch_effect_cases. destruct (_ && _); auto.
Qed.

(** X24. The hook prints its two messages together or not at all. A
    component whose control prop is null or undefined at its first render
    never prints either, also when the prop is set later; after the first
    render nothing is printed. The messages are printed only in
    development, after a render where a prop that was set at the first
    render is null or undefined. *)
Theorem switch_warnings (DEV : bool) (props : list JSVal) :
  Forall (fun printed =>
            printed = []
            \/ printed = [UncontrolledToControlled; ControlledToUncontrolled])
         (useControlledSwitchWarning DEV props)
  /\ (forall p props',
        props = p :: props' ->
        useControlledSwitchWarning DEV props !! 0%nat = Some []
        /\ (not_nullish p = false ->
            Forall (fun printed => printed = [])
                   (useControlledSwitchWarning DEV props)))
  /\ (forall i p printed,
        useControlledSwitchWarning DEV props !! i = Some printed ->
        props !! i = Some p -> printed <> [] ->
        DEV = true /\ not_nullish p = false
        /\ exists p0, props !! 0%nat = Some p0 /\ not_nullish p0 = true).
Proof.
  assert (first : forall c, switch_effect DEV c c = []).
  { intros c. rewrite switch_effect_cases. destruct DEV, c; reflexivity. }
  split; [| split].
  - destruct props as [| p props]; cbn; constructor;
      [left; apply first | apply switch_rerenders_both].
  - intros p props' ->. cbn. rewrite first.
    split; [reflexivity |].
    intros ->. constructor; [reflexivity |].
    apply switch_rerenders_uncontrolled.
  - destruct props as [| p0 props]; [intros i p printed H; discriminate |].
    intros [| i] p printed; cbn.
    + rewrite first. intros [= <-] _ C. contradiction.
    + assert (G : forall previous props i p printed,
                 switch_rerenders DEV (not_nullish p0) previous props !! i
                 = Some printed ->
                 props !! i = Some p -> printed <> [] ->
                 DEV = true /\ not_nullish p = false
                 /\ not_nullish p0 = true).
      { clear. intros previous props. revert previous.
        induction props as [| q props IH]; intros previous i p printed;
          [intros H; discriminate |].
        destruct i as [| i]; cbn.
        - intros [= <-] [= <-]. destruct (Bool.eqb _ previous);
            [intros C; contradiction |].
          rewrite switch_effect_cases.
          destruct DEV, (not_nullish p0), (not_nullish q); cbn;
            intros C; auto; contradiction.
        - apply IH. }
      intros H1 H2 H3. destruct (G _ _ _ _ _ H1 H2 H3) as (? & ? & ?).
      eauto.
Qed.

Lemma switch_warnings_witness :
  Forall (fun printed => printed = [])
         (useControlledSwitchWarning true [undefined; str "a"; null; str "b"]).
Proof.
  apply (proj1 (proj2 (switch_warnings true
                         [undefined; str "a"; null; str "b"]))
           undefined [str "a"; null; str "b"] eq_refl).
  reflexivity.
Defined.

(** ** usePrevious *)

Lemma usePrevious_from_lookup (V : Type) (V_eq_dec : EqDecision V)
  (last : V) (values : list V) (i : nat) (v : V) :
  values !! i = Some v ->
  usePrevious_from (Some last) (Some last) values !! S i
  = (fun _ => Some v) <$> values !! S i.
Proof.
  revert last i. induction values as [| w values IH]; intros last i;
    [discriminate |].
  cbn [usePrevious_from].
  assert (E : (if bool_decide (Some last = Some w) then Some last else Some w)
              = Some w).
  { destruct (bool_decide_reflect (Some last = Some w)) as [[= ->] | _];
      reflexivity. }
  rewrite E. destruct i as [| i]; cbn.
  - intros [= ->]. destruct values; reflexivity.
  - intros H. apply (IH w i H).
Qed.

Lemma usePrevious_from_length (V : Type) (V_eq_dec : EqDecision V)
  (ref deps : option V) (values : list V) :
  length (usePrevious_from ref deps values) = length values.
Proof.
  revert ref deps. induction values as [| v values IH]; intros ref deps; cbn;
    [reflexivity |].
  f_equal. apply IH.
Qed.

(** X25. usePrevious returns null at the first render of a component and,
    at every later render, the value it was given at the render before,
    also when the same value is given several times in a row. *)
Theorem usePrevious_shifts (V : Type) (V_eq_dec : EqDecision V)
  (values : list V) :
  length (usePrevious values) = length values
  /\ (values <> [] -> usePrevious values !! 0%nat = Some None)
  /\ (forall i v w,
        values !! i = Some v -> values !! S i = Some w ->
        usePrevious values !! S i = Some (Some v)).
Proof.
  split; [| split].
  - apply usePrevious_from_length.
  - destruct values; [contradiction | reflexivity].
  - destruct values as [| v0 values]; [discriminate |].
    intros i v w Hv Hw. unfold usePrevious. cbn [usePrevious_from].
    rewrite bool_decide_eq_false_2 by discriminate.
    destruct i as [| i].
    + cbn in Hv. injection Hv as ->. cbn in Hw.
      destruct values; [discriminate | reflexivity].
    + change (values !! i = Some v) in Hv.
      change (values !! S i = Some w) in Hw.
      change (usePrevious_from (Some v0) (Some v0) values !! S i
              = Some (Some v)).
      rewrite (usePrevious_from_lookup V V_eq_dec v0 values i v Hv), Hw.
      reflexivity.
Qed.

Lemma usePrevious_shifts_witness :
  usePrevious [2; 2; 5]%nat !! 2%nat = Some (Some 2%nat).
Proof.
  apply (proj2 (proj2 (usePrevious_shifts nat _ [2; 2; 5]%nat))
           1%nat 2%nat 5%nat); reflexivity.
Defined.
